(** * Shallow embedding of the naev economy (src/economy.c)

    Doubles are modelled as Rocq reals (rounding of IEEE arithmetic is not
    modelled); C integers as [Z]; C strings as [string] compared with
    [String.eqb] (the code's [strcmp(..)==0]).  Warnings issued with [WARN]
    are collected in an explicit list of messages. *)

From Stdlib Require Import ZArith List String Bool Reals Lra Psatz.
Import ListNotations.

Local Open Scope R_scope.

(** ** Commodity catalog *)
Module Catalog.

(** A modifier table entry ([CommodityModifier]): a linked list of
    (name, value) pairs; new entries are pushed at the head by the parser. *)
Definition modifier_list := list (string * R).

Record Commodity := mkCommodity {
  com_name : string;
  com_price : Z;                        (* int price *)
  com_period : R;                       (* float period, default 200 *)
  com_population_modifier : R;
  com_planet_modifier : modifier_list;
  com_faction_modifier : modifier_list;
  com_lastPurchasePrice : Z
}.

(** Result of a lookup: the index of the commodity in [commodity_stack]
    (the returned pointer is [&commodity_stack[i]]), or [None] for NULL. *)
Fixpoint find_from (i : nat) (stack : list Commodity) (name : string)
  : option nat :=
  match stack with
  | [] => None
  | c :: rest =>
      if String.eqb (com_name c) name then Some i
      else find_from (S i) rest name
  end.

(** [commodity_get]: the search loop, then a warning on a miss. *)
Definition commodity_get (stack : list Commodity) (name : string)
  : option nat * list string :=
  match find_from 0 stack name with
  | Some i => (Some i, [])
  | None => (None, ["Commodity '" ++ name ++ "' not found in stack"]%string)
  end.

(** [commodity_getW]: the same loop, no warning. *)
Definition commodity_getW (stack : list Commodity) (name : string)
  : option nat :=
  find_from 0 stack name.

End Catalog.

(** ** Data model of the universe (space.h), restricted to the fields
    economy.c reads or writes. *)
Module Universe.

(** [CommodityPrice]: the per-(planet, commodity) price field.  The double
    accumulators [sum] and [sum2] only ever receive [credits_t] values
    (integers), so they are modelled as [Z]. *)
Record CommodityPrice := mkCP {
  cp_price : R;
  cp_planetPeriod : R;
  cp_sysPeriod : R;
  cp_planetVariation : R;
  cp_sysVariation : R;
  cp_sum : Z;
  cp_sum2 : Z;
  cp_cnt : Z;
  cp_updateTime : Z
}.

(** A planet: [commodities] are indices into [commodity_stack] (the C
    array of pointers), [commodityPrice] is the parallel array of fields. *)
Record Planet := mkPlanet {
  pl_name : string;
  pl_class : string;
  pl_faction : Z;
  pl_population : Z;
  pl_gfx_exterior_len : Z;     (* strlen(planet->gfx_exterior) *)
  pl_presenceRange : Z;
  pl_commodities : list nat;
  pl_commodityPrice : list CommodityPrice
}.

(** A star system; [jumps] holds the index of each jump's target in
    [systems_stack] ([sys->jumps[j].target->id]). *)
Record StarSystem := mkSys {
  sys_name : string;
  sys_faction : Z;             (* -1: no faction *)
  sys_nebu_density : R;
  sys_nebu_volatility : R;
  sys_interference : R;
  sys_radius : R;
  sys_jumps : list nat;
  sys_planets : list Planet;
  sys_prices : list R          (* sys->prices, one per priced commodity *)
}.

(** [l[i] = v] on a C array: positions out of range are not written. *)
Fixpoint set_nth {A} (i : nat) (v : A) (l : list A) : list A :=
  match l, i with
  | [], _ => []
  | _ :: t, O => v :: t
  | h :: t, S k => h :: set_nth k v t
  end.

(** C signed integer products: [int] (32 bits) and [credits_t]
    ([int64_t]) wrap around in two's complement, as the compiled code
    does on overflow. *)
Definition wrap_int (z : Z) : Z := ((z + 2 ^ 31) mod 2 ^ 32 - 2 ^ 31)%Z.
Definition wrap_int64 (z : Z) : Z := ((z + 2 ^ 63) mod 2 ^ 64 - 2 ^ 63)%Z.

End Universe.

(** ** Network model and admittance matrix *)
Module Network.
Import Universe.

Definition ECON_BASE_RES : R := 30.
Definition ECON_SELF_RES : R := 3.
Definition ECON_FACTION_MOD : R := 0.1.

(** [econ_calcJumpR]; [areEnemies] and [areAllies] are the faction
    relations of faction.c, passed in. *)
Definition econ_calcJumpR (areEnemies areAllies : Z -> Z -> bool)
    (A B : StarSystem) : R :=
  let R0 := ECON_BASE_RES in
  let R1 := R0 + (sys_nebu_density A + sys_nebu_density B) / 1000 in
  let R2 := R1 + (sys_nebu_volatility A + sys_nebu_volatility B) / 100 in
  if negb (Z.eqb (sys_faction A) (-1)) && negb (Z.eqb (sys_faction B) (-1))
  then
    (if areEnemies (sys_faction A) (sys_faction B)
     then R2 + ECON_FACTION_MOD * ECON_BASE_RES
     else if areAllies (sys_faction A) (sys_faction B)
     then R2 - ECON_FACTION_MOD * ECON_BASE_RES
     else R2)
  else R2.

(** A triplet-form CSparse matrix: the list of [cs_entry] calls, in order. *)
Definition triplets := list (nat * nat * R).

(** The entries pushed for one system [i]: for every jump, [(i,t,-1/R)]
    and [(t,i,-1/R)]; then the diagonal [(i,i,Rsum + 1/ECON_SELF_RES)]. *)
Definition sys_entries (areEnemies areAllies : Z -> Z -> bool)
    (stack : list StarSystem) (i : nat) (sys : StarSystem) : triplets :=
  let fix go (js : list nat) (Rsum : R) : triplets :=
    match js with
    | [] => [(i, i, Rsum + 1 / ECON_SELF_RES)]
    | t :: rest =>
        match nth_error stack t with
        | Some tgt =>
            let Rinv := 1 / econ_calcJumpR areEnemies areAllies sys tgt in
            (i, t, - Rinv) :: (t, i, - Rinv) :: go rest (Rsum + Rinv)
        | None => go rest Rsum   (* not reachable: targets are valid *)
        end
    end in
  go (sys_jumps sys) 0.

(** [econ_createGMatrix]: the triplets of every system, in stack order. *)
Definition econ_createGMatrix (areEnemies areAllies : Z -> Z -> bool)
    (stack : list StarSystem) : triplets :=
  let fix go (i : nat) (l : list StarSystem) : triplets :=
    match l with
    | [] => []
    | s :: rest => sys_entries areEnemies areAllies stack i s ++ go (S i) rest
    end in
  go 0%nat stack.

(** The matrix a triplet list stands for: duplicate entries are summed
    (the meaning CSparse gives them, made explicit by [cs_dupl]). *)
Definition entry (T : triplets) (i j : nat) : R :=
  fold_right (fun '(a, b, v) acc =>
    if Nat.eqb a i && Nat.eqb b j then v + acc else acc) 0 T.

(** [y = A*x] as [cs_gaxpy] computes it: every stored entry contributes. *)
Definition gaxpy (T : triplets) (x : nat -> R) (i : nat) : R :=
  fold_right (fun '(a, b, v) acc =>
    if Nat.eqb a i then v * x b + acc else acc) 0 T.

End Network.

(** ** Equilibrium solve ([economy_update]) *)
Module Solver.
Import Universe.

Record Econ := mkEcon {
  econ_initialized : bool;
  econ_queued : Z;
  econ_nprices : nat;
  econ_stack : list StarSystem
}.

(** [econ_calcSysI]: the intensity is the constant 0. *)
Definition econ_calcSysI (dt : Z) (sys : StarSystem) (price : nat) : R := 0.

(** The final loop of one good: [systems_stack[i].prices[j] = X[i]*scale + offset]. *)
Fixpoint store_prices (j : nat) (X : list R) (scale offset : R) (i : nat)
    (l : list StarSystem) : list StarSystem :=
  match l with
  | [] => []
  | s :: rest =>
      {| sys_name := sys_name s; sys_faction := sys_faction s;
         sys_nebu_density := sys_nebu_density s;
         sys_nebu_volatility := sys_nebu_volatility s;
         sys_interference := sys_interference s;
         sys_radius := sys_radius s; sys_jumps := sys_jumps s;
         sys_planets := sys_planets s;
         sys_prices := set_nth j (nth i X 0 * scale + offset) (sys_prices s) |}
      :: store_prices j X scale offset (S i) rest
  end.

(** One good [j]: load the intensities, call the solver ([cs_qrsol], which
    returns an int and overwrites [X] in place), warn on a return other
    than 1, then store [X[i]*scale + offset] in every system. *)
Definition update_one (solve : Network.triplets -> list R -> Z * list R)
    (G : Network.triplets) (dt : Z) (j : nat)
    (stack : list StarSystem) (warns : list string)
    : list StarSystem * list string :=
  let X := map (fun s => econ_calcSysI dt s j) stack in
  let '(ret, X') := solve G X in
  let warns' := if Z.eqb ret 1 then warns
                else warns ++ ["Failed to solve the Economy System."%string] in
  let scale := 1 in
  let offset := 1 in
  (store_prices j X' scale offset 0%nat stack, warns').

(** The loop over the goods [j = j0 .. j0+n-1]. *)
Fixpoint update_loop (solve : Network.triplets -> list R -> Z * list R)
    (G : Network.triplets) (dt : Z) (j : nat) (n : nat)
    (stack : list StarSystem) (warns : list string)
    : list StarSystem * list string :=
  match n with
  | O => (stack, warns)
  | S n' => let '(stack', warns') := update_one solve G dt j stack warns in
            update_loop solve G dt (S j) n' stack' warns'
  end.

(** [economy_update]: returns the C return code, the new state and the
    warnings issued. *)
Definition economy_update (solve : Network.triplets -> list R -> Z * list R)
    (G : Network.triplets) (dt : Z) (st : Econ) : Z * Econ * list string :=
  if negb (econ_initialized st) then (0%Z, st, [])
  else
    let '(stack', warns) := update_loop solve G dt 0%nat (econ_nprices st) (econ_stack st) [] in
    (0%Z, {| econ_initialized := econ_initialized st; econ_queued := 0;
             econ_nprices := econ_nprices st; econ_stack := stack' |}, warns).

End Solver.

(** ** Price initializer ([economy_initialiseCommodityPrices]) *)
Module Initializer.
Import Universe Catalog.

Fixpoint map2 {A B C} (f : A -> B -> C) (l1 : list A) (l2 : list B) : list C :=
  match l1, l2 with
  | a :: t1, b :: t2 => f a b :: map2 f t1 t2
  | _, _ => []
  end.

(** Name of [commodity_stack[k]]. *)
Definition cname (stack : list Commodity) (k : nat) : string :=
  match nth_error stack k with Some c => com_name c | None => EmptyString end.

(** The modifier-list walk: the value of the first entry named [key], or
    [1.] when there is none. *)
Fixpoint modifier_lookup (key : string) (cm : modifier_list) : R :=
  match cm with
  | [] => 1
  | (n, v) :: rest => if String.eqb key n then v else modifier_lookup key rest
  end.

(** [strlen(a) - strlen(b) - 19] evaluated on [size_t] (64-bit, wraps). *)
Definition size_sub (a b : Z) : Z := ((a - b) mod 2 ^ 64)%Z.

(** Pass 1, [economy_calcPrice], with the table walked for the faction
    factor as a parameter [faction_table] (see [economy_calcPrice] below).
    [faction_name] is faction.c's [faction_name]; [ext_path_len] is
    [strlen(PLANET_GFX_EXTERIOR_PATH)].  The variable [period] computed
    from [gfx_spaceName] is never used by the code and is omitted. *)
Definition calcPrice_with (faction_table : Commodity -> modifier_list)
    (faction_name : Z -> string) (ext_path_len : Z)
    (planet : Planet) (commodity : Commodity) (cp : CommodityPrice)
    : CommodityPrice :=
  let scale1 := modifier_lookup (pl_class planet) (com_planet_modifier commodity) in
  let price1 := cp_price cp * scale1 in
  let pv1 := 0.5 in
  let base := 100 in
  let pp1 := com_period commodity + base in
  let scale2 := 1 + IZR (size_sub (size_sub (pl_gfx_exterior_len planet) ext_path_len) 19) / 100 in
  let pp2 := pp1 * scale2 in
  let factor :=
    if Z.ltb 0 (pl_population planet)
    then tanh ((ln (IZR (pl_population planet)) - ln (10 ^ 8)) / 2)
    else -1 in
  let base2 := com_population_modifier commodity in
  let price2 := price1 * (1 + factor * base2) in
  let pv2 := pv1 * (0.5 - factor * 0.25) in
  let pp3 := pp2 * (1 + factor * 0.5) in
  let scale3 := modifier_lookup (faction_name (pl_faction planet))
                                (faction_table commodity) in
  let price3 := price2 * scale3 in
  let price4 := price3 * (1 - IZR (pl_presenceRange planet) / 30) in
  let pp4 := pp3 * (1 / (1 - IZR (pl_presenceRange planet) / 30)) in
  {| cp_price := price4; cp_planetPeriod := pp4; cp_sysPeriod := cp_sysPeriod cp;
     cp_planetVariation := pv2; cp_sysVariation := 0;
     cp_sum := 0; cp_sum2 := 0; cp_cnt := 0; cp_updateTime := 0 |}.

(** [economy_calcPrice] as written: the faction loop starts from
    [cm=commodity->planet_modifier]. *)
Definition economy_calcPrice := calcPrice_with com_planet_modifier.

(** Specification-side Pass 1: the faction factor read from the
    by-faction table [faction_modifier]. *)
Definition calcPrice_spec := calcPrice_with com_faction_modifier.

(** Record rebuilders used by the passes below. *)
Definition set_prices (cp : CommodityPrice) (price pp sp pv sv : R) : CommodityPrice :=
  {| cp_price := price; cp_planetPeriod := pp; cp_sysPeriod := sp;
     cp_planetVariation := pv; cp_sysVariation := sv;
     cp_sum := cp_sum cp; cp_sum2 := cp_sum2 cp; cp_cnt := cp_cnt cp;
     cp_updateTime := cp_updateTime cp |}.

Definition set_commodityPrice (pl : Planet) (cps : list CommodityPrice) : Planet :=
  {| pl_name := pl_name pl; pl_class := pl_class pl; pl_faction := pl_faction pl;
     pl_population := pl_population pl;
     pl_gfx_exterior_len := pl_gfx_exterior_len pl;
     pl_presenceRange := pl_presenceRange pl;
     pl_commodities := pl_commodities pl; pl_commodityPrice := cps |}.

Definition set_planets (sys : StarSystem) (pls : list Planet) : StarSystem :=
  {| sys_name := sys_name sys; sys_faction := sys_faction sys;
     sys_nebu_density := sys_nebu_density sys;
     sys_nebu_volatility := sys_nebu_volatility sys;
     sys_interference := sys_interference sys; sys_radius := sys_radius sys;
     sys_jumps := sys_jumps sys; sys_planets := pls; sys_prices := sys_prices sys |}.

(** The scratch array [sys->averagePrice]: a [CommodityPrice] whose
    [updateTime] counts the contributing planets and whose [sum] receives
    the neighbour mean in Pass 3. *)
Record AvPrice := mkAv {
  av_name : string;
  av_n : Z;
  av_price : R;
  av_planetPeriod : R;
  av_sysPeriod : R;
  av_planetVariation : R;
  av_sysVariation : R;
  av_sum : R
}.

(** Pass 2, first loop body: the per-entry system scalings. *)
Definition modify_cp (sys : StarSystem) (cp : CommodityPrice) : CommodityPrice :=
  let price1 := cp_price cp * (1 + sys_radius sys / 200000) in
  let pp := cp_planetPeriod cp * (1 / (1 - sys_radius sys / 200000)) in
  let pv := cp_planetVariation cp * (1 / (1 - sys_radius sys / 300000)) in
  let price2 := price1 * (1 + sys_nebu_volatility sys / 6000) in
  let price3 := price2 * (1 + sys_interference sys / 10000) in
  let sp := 2000 / (INR (List.length (sys_jumps sys)) + 1) in
  set_prices cp price3 pp sp pv (cp_sysVariation cp).

(** Pass 2, the search in [avprice]: add to the first entry with the
    name, or append a new entry (count 1) at the end. *)
Fixpoint av_add (av : list AvPrice) (name : string) (cp : CommodityPrice)
  : list AvPrice :=
  match av with
  | [] => [{| av_name := name; av_n := 1; av_price := cp_price cp;
              av_planetPeriod := cp_planetPeriod cp; av_sysPeriod := cp_sysPeriod cp;
              av_planetVariation := cp_planetVariation cp;
              av_sysVariation := cp_sysVariation cp; av_sum := 0 |}]
  | a :: rest =>
      if String.eqb name (av_name a) then
        {| av_name := av_name a; av_n := (av_n a + 1)%Z;
           av_price := av_price a + cp_price cp;
           av_planetPeriod := av_planetPeriod a + cp_planetPeriod cp;
           av_sysPeriod := av_sysPeriod a + cp_sysPeriod cp;
           av_planetVariation := av_planetVariation a + cp_planetVariation cp;
           av_sysVariation := av_sysVariation a + cp_sysVariation cp;
           av_sum := av_sum a |} :: rest
      else a :: av_add rest name cp
  end.

(** Pass 2, "inter-planet averaging": divide every sum by its count. *)
Definition av_divide (a : AvPrice) : AvPrice :=
  {| av_name := av_name a; av_n := av_n a;
     av_price := av_price a / IZR (av_n a);
     av_planetPeriod := av_planetPeriod a / IZR (av_n a);
     av_sysPeriod := av_sysPeriod a / IZR (av_n a);
     av_planetVariation := av_planetVariation a / IZR (av_n a);
     av_sysVariation := av_sysVariation a / IZR (av_n a);
     av_sum := av_sum a |}.

(** Pass 2, "apply the averaging": every matching entry (no [break]). *)
Definition apply_av (av : list AvPrice) (name : string) (cp : CommodityPrice)
  : CommodityPrice :=
  fold_left (fun cp a =>
    if String.eqb name (av_name a) then
      set_prices cp (0.25 * cp_price cp + 0.75 * av_price a)
        (cp_planetPeriod cp) (cp_sysPeriod cp) (cp_planetVariation cp)
        (0.2 * av_planetVariation a)
    else cp) av cp.

(** [economy_modifySystemCommodityPrice]: the modified system and its
    [averagePrice] array.  The C code scales each entry and then adds it
    to [avprice] in the same iteration; as the scaling of an entry reads
    nothing else, scaling all entries first and then accumulating them in
    the same order is the same computation. *)
Definition economy_modifySystemCommodityPrice (stack : list Commodity)
    (sys : StarSystem) : StarSystem * list AvPrice :=
  let pls1 := map (fun pl => set_commodityPrice pl
                     (map (modify_cp sys) (pl_commodityPrice pl)))
                  (sys_planets sys) in
  let av := fold_left (fun av pl =>
              fold_left (fun av '(k, cp) => av_add av (cname stack k) cp)
                        (combine (pl_commodities pl) (pl_commodityPrice pl)) av)
            pls1 [] in
  let av' := map av_divide av in
  let pls2 := map (fun pl => set_commodityPrice pl
                     (map2 (fun k cp => apply_av av' (cname stack k) cp)
                           (pl_commodities pl) (pl_commodityPrice pl)))
                  pls1 in
  (set_planets sys pls2, av').

(** First entry of an [averagePrice] array with the given name. *)
Fixpoint av_find (name : string) (av : list AvPrice) : option AvPrice :=
  match av with
  | [] => None
  | a :: rest => if String.eqb (av_name a) name then Some a else av_find name rest
  end.

(** Pass 3, [economy_smoothCommodityPrice]: [avs] are the [averagePrice]
    arrays of all systems (only their [price] fields are read, which Pass 3
    does not write). *)
Definition economy_smoothCommodityPrice (avs : list (list AvPrice))
    (sys : StarSystem) (av : list AvPrice) : list AvPrice :=
  map (fun a =>
    let '(price, n) :=
      fold_left (fun '(price, n) t =>
        match nth_error avs t with
        | Some nav =>
            match av_find (av_name a) nav with
            | Some b => (price + av_price b, (n + 1)%nat)
            | None => (price, n)
            end
        | None => (price, n)
        end) (sys_jumps sys) (0, 0%nat) in
    {| av_name := av_name a; av_n := av_n a; av_price := av_price a;
       av_planetPeriod := av_planetPeriod a; av_sysPeriod := av_sysPeriod a;
       av_planetVariation := av_planetVariation a;
       av_sysVariation := av_sysVariation a;
       av_sum := if Nat.eqb n 0 then av_price a else price / INR n |}) av.

(** Pass 4, the per-entry update against the first matching average. *)
Definition final_cp (a : AvPrice) (cp : CommodityPrice) : CommodityPrice :=
  let price := 0.25 * cp_price cp + 0.75 * av_price a in
  let pv := 0.1 * (0.5 * av_planetVariation a + 0.5 * cp_planetVariation cp) in
  set_prices cp price (cp_planetPeriod cp) (cp_sysPeriod cp)
    (pv * price) (cp_sysVariation cp * price).

(** Pass 4, [economy_calcUpdatedCommodityPrice]. *)
Definition economy_calcUpdatedCommodityPrice (stack : list Commodity)
    (sys : StarSystem) (av : list AvPrice) : StarSystem :=
  let av' := map (fun a =>
    {| av_name := av_name a; av_n := av_n a;
       av_price := 0.5 * (av_price a + av_sum a);
       av_planetPeriod := av_planetPeriod a; av_sysPeriod := av_sysPeriod a;
       av_planetVariation := av_planetVariation a;
       av_sysVariation := av_sysVariation a; av_sum := av_sum a |}) av in
  set_planets sys (map (fun pl => set_commodityPrice pl
    (map2 (fun k cp =>
       match av_find (cname stack k) av' with
       | Some a => final_cp a cp
       | None => cp
       end) (pl_commodities pl) (pl_commodityPrice pl))) (sys_planets sys)).

(** Pass 1 over one planet. *)
Definition calcPrice_planet (faction_name : Z -> string) (ext_path_len : Z)
    (stack : list Commodity) (pl : Planet) : Planet :=
  set_commodityPrice pl
    (map2 (fun k cp =>
       match nth_error stack k with
       | Some c => economy_calcPrice faction_name ext_path_len pl c cp
       | None => cp
       end) (pl_commodities pl) (pl_commodityPrice pl)).

(** [economy_initialiseCommodityPrices]: the four passes, then the
    modifier tables of every commodity are released. *)
Definition economy_initialiseCommodityPrices (faction_name : Z -> string)
    (ext_path_len : Z) (stack : list Commodity) (systems : list StarSystem)
    : list Commodity * list StarSystem :=
  let s1 := map (fun sys => set_planets sys
                   (map (calcPrice_planet faction_name ext_path_len stack)
                        (sys_planets sys))) systems in
  let s2 := map (economy_modifySystemCommodityPrice stack) s1 in
  let avs := map snd s2 in
  let s3 := map (fun '(sys, av) => (sys, economy_smoothCommodityPrice avs sys av)) s2 in
  let s4 := map (fun '(sys, av) => economy_calcUpdatedCommodityPrice stack sys av) s3 in
  let stack' := map (fun c =>
    {| com_name := com_name c; com_price := com_price c; com_period := com_period c;
       com_population_modifier := com_population_modifier c;
       com_planet_modifier := []; com_faction_modifier := [];
       com_lastPurchasePrice := com_lastPurchasePrice c |}) stack in
  (stack', s4).

End Initializer.

(** ** Price evaluator ([economy_getPriceAtTime]) *)
Module Evaluator.
Import Universe Catalog.

(** The C conversion [(credits_t) x] of a double: truncation toward 0. *)
Definition c_trunc (x : R) : Z :=
  if Rle_dec 0 x then Int_part x else (- Int_part (- x))%Z.

(** Modelled from the spec: [ntime_convertSTU] (ntime.c) and [NT_STP_STU]
    (ntime.h) are not part of economy.c; the spec says "a fixed divisor
    converts the raw simulated-time unit to this period".  [stp_div] is
    that divisor. *)
Definition stp_time (stp_div : R) (tme : Z) : R := IZR tme / stp_div.

(** Is [commodity_stack[k]] listed in [econ_comm]? *)
Definition econ_priced (econ_comm : list nat) (k : nat) : bool :=
  existsb (Nat.eqb k) econ_comm.

(** Index of the first entry of [p->commodities] named [name]. *)
Definition planet_index (stack : list Commodity) (p : Planet) (name : string)
  : option nat :=
  let fix go i l :=
    match l with
    | [] => None
    | k :: rest => if String.eqb (Initializer.cname stack k) name then Some i
                   else go (S i) rest
    end in go 0%nat (pl_commodities p).

(** [economy_getPriceAtTime] for [com = &commodity_stack[k]]: the price
    and the warnings. *)
Definition economy_getPriceAtTime (stp_div : R) (econ_comm : list nat)
    (stack : list Commodity) (k : nat) (p : Planet) (tme : Z)
    : Z * list string :=
  let t := stp_time stp_div tme in
  let name := Initializer.cname stack k in
  if negb (econ_priced econ_comm k) then
    (0%Z, ["Price for commodity '" ++ name ++ "' not known."]%string)
  else
    match planet_index stack p name with
    | None => (0%Z, ["Price for commodity '" ++ name ++ "' not known on this planet."]%string)
    | Some i =>
        match nth_error (pl_commodityPrice p) i with
        | None => (0%Z, [])   (* not reachable: parallel arrays *)
        | Some cp =>
            let price := cp_price cp
                + cp_sysVariation cp * sin (2 * PI * t / cp_sysPeriod cp)
                + cp_planetVariation cp * sin (2 * PI * t / cp_planetPeriod cp) in
            (c_trunc (price + 0.5), [])
        end
    end.

(** Specification-side evaluator: [round(base + planet term + system
    term)], rounding half up. *)
Definition price_spec (stp_div : R) (cp : CommodityPrice) (tme : Z) : Z :=
  let t := stp_time stp_div tme in
  Int_part (cp_price cp
            + cp_planetVariation cp * sin (2 * PI * t / cp_planetPeriod cp)
            + cp_sysVariation cp * sin (2 * PI * t / cp_sysPeriod cp) + 0.5).

End Evaluator.

(** ** Observation tracker *)
Module Observation.
Import Universe Catalog Evaluator.

(** [economy_getAveragePlanetPrice]: (return code, *mean, *std). *)
Definition economy_getAveragePlanetPrice (econ_comm : list nat)
    (stack : list Commodity) (k : nat) (p : Planet) : Z * Z * R :=
  let name := Initializer.cname stack k in
  if negb (econ_priced econ_comm k) then ((-1)%Z, 0%Z, 0)
  else
    match planet_index stack p name with
    | None => ((-1)%Z, 0%Z, 0)
    | Some i =>
        match nth_error (pl_commodityPrice p) i with
        | None => ((-1)%Z, 0%Z, 0)   (* not reachable: parallel arrays *)
        | Some cp =>
            if Z.ltb 0 (cp_cnt cp) then
              (0%Z, c_trunc (IZR (cp_sum cp) / IZR (cp_cnt cp) + 0.5),
               sqrt (IZR (cp_sum2 cp) / IZR (cp_cnt cp)
                     - IZR (cp_sum cp) * IZR (cp_sum cp)
                       / IZR (wrap_int (cp_cnt cp * cp_cnt cp))))
            else (0%Z, 0%Z, 0)
        end
    end.

Definition set_obs (cp : CommodityPrice) (sum sum2 cnt time : Z) : CommodityPrice :=
  {| cp_price := cp_price cp; cp_planetPeriod := cp_planetPeriod cp;
     cp_sysPeriod := cp_sysPeriod cp; cp_planetVariation := cp_planetVariation cp;
     cp_sysVariation := cp_sysVariation cp;
     cp_sum := sum; cp_sum2 := sum2; cp_cnt := cnt; cp_updateTime := time |}.

(** [economy_averageSeenPrices] at the current time [t = ntime_get()]:
    the price of each entry is [economy_getPrice] at [t]; it reads only
    price parameters, which this loop does not write, so it is evaluated
    on the planet as given. ([price*price] is a [credits_t] product.) *)
Definition economy_averageSeenPrices (stp_div : R) (econ_comm : list nat)
    (stack : list Commodity) (t : Z) (p : Planet) : Planet :=
  Initializer.set_commodityPrice p
    (Initializer.map2 (fun k cp =>
       if Z.ltb (cp_updateTime cp) t then
         let price := fst (economy_getPriceAtTime stp_div econ_comm stack k p t) in
         set_obs cp (cp_sum cp + price) (cp_sum2 cp + wrap_int64 (price * price))
                 (cp_cnt cp + 1) t
       else cp) (pl_commodities p) (pl_commodityPrice p)).

End Observation.

(** ** Persistence ([economy_sysSave], [economy_clearKnown],
    [economy_sysLoad]).  The XML framing is not modelled: a saved document
    is the list of [lastPurchase] elements followed by the list of
    [commodity] elements, each with the names of its enclosing [system]
    and [planet] elements.  The attribute texts ([%f], [%d], [PRIu64])
    read back by [atof], [atoi], [atol] give back the integer values
    written. *)
Module Persist.
Import Universe Catalog Initializer Observation.

Record Entry := mkEntry {
  e_sys : string;
  e_planet : string;
  e_com : string;
  e_sum : Z;
  e_sum2 : Z;
  e_cnt : Z;
  e_time : Z
}.

Definition Document := (list (string * Z) * list Entry)%type.

(** [economy_sysSave]. *)
Definition economy_sysSave (stack : list Commodity) (systems : list StarSystem)
  : Document :=
  let lp := map (fun c => (com_name c, com_lastPurchasePrice c))
                (filter (fun c => Z.ltb 0 (com_lastPurchasePrice c)) stack) in
  let es :=
    flat_map (fun sys =>
      flat_map (fun p =>
        flat_map (fun '(k, cp) =>
          if Z.ltb 0 (cp_cnt cp) then
            [{| e_sys := sys_name sys; e_planet := pl_name p; e_com := cname stack k;
                e_sum := cp_sum cp; e_sum2 := cp_sum2 cp; e_cnt := cp_cnt cp;
                e_time := cp_updateTime cp |}]
          else [])
          (combine (pl_commodities p) (pl_commodityPrice p)))
        (sys_planets sys)) systems in
  (lp, es).

Definition set_lastPurchase (c : Commodity) (v : Z) : Commodity :=
  {| com_name := com_name c; com_price := com_price c; com_period := com_period c;
     com_population_modifier := com_population_modifier c;
     com_planet_modifier := com_planet_modifier c;
     com_faction_modifier := com_faction_modifier c;
     com_lastPurchasePrice := v |}.

(** [economy_clearKnown]. *)
Definition economy_clearKnown (stack : list Commodity) (systems : list StarSystem)
  : list Commodity * list StarSystem :=
  (map (fun c => set_lastPurchase c 0) stack,
   map (fun sys => set_planets sys (map (fun p => set_commodityPrice p
          (map (fun cp => set_obs cp 0 0 0 0) (pl_commodityPrice p)))
        (sys_planets sys))) systems).

(** One [commodity] element, applied to the planet found by name: the
    first commodity of the planet with that name receives the four
    attributes; none matching, the element is skipped. *)
Definition load_into_planet (stack : list Commodity) (e : Entry) (p : Planet) : Planet :=
  match Evaluator.planet_index stack p (e_com e) with
  | None => p
  | Some i =>
      set_commodityPrice p
        (match nth_error (pl_commodityPrice p) i with
         | Some cp => set_nth i (set_obs cp (e_sum e) (e_sum2 e) (e_cnt e) (e_time e))
                              (pl_commodityPrice p)
         | None => pl_commodityPrice p
         end)
  end.

(** [planet_get] followed by an update of the planet found: the first
    planet with the name (planet names are unique, so the order of the
    search does not matter); [None] when there is none, where the C code
    dereferences NULL. *)
Fixpoint update_planet_list (name : string) (f : Planet -> Planet) (ps : list Planet)
  : option (list Planet) :=
  match ps with
  | [] => None
  | p :: rest => if String.eqb (pl_name p) name then Some (f p :: rest)
                 else option_map (cons p) (update_planet_list name f rest)
  end.

Fixpoint update_planet (name : string) (f : Planet -> Planet) (systems : list StarSystem)
  : option (list StarSystem) :=
  match systems with
  | [] => None
  | s :: rest =>
      match update_planet_list name f (sys_planets s) with
      | Some ps => Some (set_planets s ps :: rest)
      | None => option_map (cons s) (update_planet name f rest)
      end
  end.

(** A [lastPurchase] element: [commodity_get] then a store through the
    returned pointer ([None]: NULL dereferenced). *)
Definition load_lastPurchase (stack : list Commodity) (name : string) (v : Z)
  : option (list Commodity) :=
  match fst (Catalog.commodity_get stack name) with
  | Some i => match nth_error stack i with
              | Some c => Some (set_nth i (set_lastPurchase c v) stack)
              | None => None
              end
  | None => None
  end.

(** [economy_sysLoad]: clear, then apply the elements in document order. *)
Definition economy_sysLoad (doc : Document) (stack : list Commodity)
    (systems : list StarSystem) : option (list Commodity * list StarSystem) :=
  let '(stack0, systems0) := economy_clearKnown stack systems in
  let stack1 := fold_left (fun acc '(n, v) =>
                  match acc with Some st => load_lastPurchase st n v | None => None end)
                (fst doc) (Some stack0) in
  match stack1 with
  | None => None
  | Some stack1 =>
      let systems1 := fold_left (fun acc e =>
                        match acc with
                        | Some ss => update_planet (e_planet e) (load_into_planet stack1 e) ss
                        | None => None
                        end) (snd doc) (Some systems0) in
      match systems1 with
      | Some ss => Some (stack1, ss)
      | None => None
      end
  end.

End Persist.


(** ** Commodity loading ([commodity_parse], [commodity_load]) and the
    sort order [commodity_compareTech] *)
Module Loader.
Import Catalog.

(** An element child of a <commodity> node, as the parser reads it: its
    tag ([xml_isNode]), its [type] attribute ([xml_nodeProp(node,"type")])
    and its value as a float ([xml_getFloat]).  Non-element children are
    skipped by [xml_onlyNodes] and are not listed. *)
Record XNode := mkXNode { x_tag : string; x_type : string; x_float : R }.

(** The two modifier branches of [commodity_parse].  The [memset] leaves
    both lists empty; each <planet_modifier> child pushes
    [(type, value)] at the head of [planet_modifier] (then [continue]),
    each <faction_modifier> child at the head of [faction_modifier].  The
    other branches of the loop (name, description, price, gfx_space,
    gfx_store, population_modifier, period) only set other fields. *)
Definition modifier_step (acc : modifier_list * modifier_list) (node : XNode)
  : modifier_list * modifier_list :=
  let '(pm, fm) := acc in
  if String.eqb (x_tag node) "planet_modifier"
  then ((x_type node, x_float node) :: pm, fm)
  else if String.eqb (x_tag node) "faction_modifier"
  then (pm, (x_type node, x_float node) :: fm)
  else (pm, fm).

Definition parse_modifiers (children : list XNode) : modifier_list * modifier_list :=
  fold_left modifier_step children ([], []).

(** A child of the <Commodities> root: whether it is an element
    ([xml_isElement]), its tag and its element children. *)
Record XElem := mkXElem { el_element : bool; el_tag : string; el_children : list XNode }.

(** The document as [commodity_load] gets it. *)
Inductive XDoc :=
| Unreadable                            (* ndata_read returns NULL *)
| InvalidXML                            (* xmlParseMemory returns NULL *)
| Parsed (root : string) (children : list XElem).

(** The globals [commodity_stack], [econ_comm] and [econ_nprices]. *)
Record CatState := mkCat {
  commodity_stack : list Commodity;
  econ_comm : list nat;
  econ_nprices : nat
}.

Section Load.
(** [commodity_parse] applied to a <commodity> element (its own warnings
    are not collected here), and the path [COMMODITY_DATA_PATH]. *)
Variable commodity_parse : XElem -> Commodity.
Variable COMMODITY_DATA_PATH : string.

(** One iteration of the [do ... while] loop of [commodity_load]. *)
Definition load_step (acc : CatState * list string) (node : XElem)
  : CatState * list string :=
  let '(st, warns) := acc in
  if negb (el_element node) then acc
  else if String.eqb (el_tag node) "commodity" then
    let c := commodity_parse node in
    let stack' := commodity_stack st ++ [c] in
    if Z.ltb 0 (com_price c) then
      (mkCat stack' (econ_comm st ++ [(List.length stack' - 1)%nat])
             (S (econ_nprices st)), warns)
    else (mkCat stack' (econ_comm st) (econ_nprices st), warns)
  else (st, warns ++ ["'" ++ COMMODITY_DATA_PATH ++ "' has unknown node '"
                       ++ el_tag node ++ "'."]%string).

(** [commodity_load] from the start-up state (the globals are NULL and
    0): (return value, globals, warnings).  [ERR] ends the program: the
    result is then [None]. *)
Definition commodity_load (doc : XDoc) : option (Z * CatState * list string) :=
  match doc with
  | Unreadable => Some ((-1)%Z, mkCat [] [] 0, [])
  | InvalidXML => Some ((-1)%Z, mkCat [] [] 0,
                        ["'" ++ COMMODITY_DATA_PATH ++ "' is not valid XML."]%string)
  | Parsed root children =>
      if negb (String.eqb root "Commodities") then None
      else match children with
           | [] => None
           | _ => let '(st, warns) := fold_left load_step children (mkCat [] [] 0, []) in
                  Some (0%Z, st, warns)
           end
  end.
End Load.

(** [strcmp]: callers only use the sign of its result, which is the
    bytewise (unsigned) lexicographic order, [String.compare]. *)
Definition strcmp (a b : string) : Z :=
  match String.compare a b with Lt => (-1)%Z | Eq => 0%Z | Gt => 1%Z end.

(** [commodity_compareTech], the [qsort] comparator. *)
Definition commodity_compareTech (c1 c2 : Commodity) : Z :=
  if Z.ltb (com_price c1) (com_price c2) then 1%Z
  else if Z.ltb (com_price c2) (com_price c1) then (-1)%Z
  else strcmp (com_name c1) (com_name c2).

End Loader.

(** ** Credits display ([credits2str], [price2str]) *)
Module Display.

(** What [credits2str] writes: [Plain c] for the format ["%"CREDITS_PRI]
    with argument [c]; [Scaled d x s] for ["%.*f" ++ s] with arguments
    [d] and [x]. *)
Inductive CreditsText :=
| Plain (credits : Z)
| Scaled (decimals : Z) (value : R) (suffix : string).

Definition credits2str (credits : Z) (decimals : Z) : CreditsText :=
  if Z.ltb decimals 0 then Plain credits
  else if Z.leb 1000000000000000 credits then
    Scaled decimals (IZR credits / 1000000000000000) "Q"
  else if Z.leb 1000000000000 credits then
    Scaled decimals (IZR credits / 1000000000000) "T"
  else if Z.leb 1000000000 credits then
    Scaled decimals (IZR credits / 1000000000) "B"
  else if Z.leb 1000000 credits then
    Scaled decimals (IZR credits / 1000000) "M"
  else if Z.leb 1000 credits then
    Scaled decimals (IZR credits / 1000) "K"
  else Plain credits.

End Display.

(** ** Gatherables floating in space *)
Module Gatherables.
Import Universe.

Definition vec := (R * R)%type.

Record Gatherable := mkGat {
  g_type : nat;          (* index of [type] in [commodity_stack] *)
  g_pos : vec;
  g_vel : vec;
  g_timer : R;
  g_lifeleng : R
}.

(** [gatherable_stack] and the float [noscoop_timer]. *)
Record GState := mkGS {
  gatherable_stack : list Gatherable;
  noscoop_timer : R
}.

(** [gatherable_init]; [rngf] is the value drawn by [RNGF()]. *)
Definition gatherable_init (rngf : R) (com : nat) (pos vel : vec) (st : GState) : GState :=
  mkGS (gatherable_stack st ++ [mkGat com pos vel 0 (rngf * 100 + 50)])
       (noscoop_timer st).

(** [memmove] of the tail over element [i]: the element is removed. *)
Fixpoint remove_nth {A} (i : nat) (l : list A) : list A :=
  match l, i with
  | [], _ => []
  | _ :: t, O => t
  | h :: t, S k => h :: remove_nth k t
  end.

(** The three updates of one element of [gatherable_update]. *)
Definition advance (dt : R) (g : Gatherable) : Gatherable :=
  mkGat (g_type g)
        (fst (g_pos g) + dt * fst (g_vel g), snd (g_pos g) + dt * snd (g_vel g))
        (g_vel g) (g_timer g + dt) (g_lifeleng g).

(** The loop of [gatherable_update] on the index [i]; a removal is
    followed by [i--], so the same index is visited again.  Every
    iteration removes an element or increments [i], so [fuel] equal to
    the length of the stack bounds the iterations. *)
Fixpoint gatherable_loop (fuel : nat) (dt : R) (i : nat) (l : list Gatherable)
  : list Gatherable :=
  match fuel with
  | O => l
  | S f =>
      match nth_error l i with
      | None => l
      | Some g =>
          let l' := set_nth i (advance dt g) l in
          if Rlt_dec (g_lifeleng (advance dt g)) (g_timer (advance dt g))
          then gatherable_loop f dt i (remove_nth i l')
          else gatherable_loop f dt (S i) l'
      end
  end.

Definition gatherable_update (dt : R) (st : GState) : GState :=
  mkGS (gatherable_loop (List.length (gatherable_stack st)) dt 0 (gatherable_stack st))
       (noscoop_timer st + dt).

(** [gatherable_free]. *)
Definition gatherable_free (st : GState) : GState := mkGS [] (noscoop_timer st).

(** [vectnull]. *)
Definition vectnull : vec := (0, 0).

(** [gatherable_getPos]: (position, velocity, return value). *)
Definition gatherable_getPos (st : GState) (id : Z) : vec * vec * Z :=
  if Z.ltb id 0 || Z.ltb (Z.of_nat (List.length (gatherable_stack st)) - 1) id
  then (vectnull, vectnull, 0%Z)
  else match nth_error (gatherable_stack st) (Z.to_nat id) with
       | Some g => (g_pos g, g_vel g, 1%Z)
       | None => (vectnull, vectnull, 0%Z)    (* not reachable *)
       end.

Section WithDist.
(** [vect_dist] (physics.c). *)
Variable vect_dist : vec -> vec -> R.

(** The loop of [gatherable_getClosest]; [mindist = None] is [INFINITY]. *)
Fixpoint closest_loop (pos : vec) (rad : R) (i : nat) (l : list Gatherable)
    (curg : Z) (mindist : option R) : Z :=
  match l with
  | [] => curg
  | gat :: rest =>
      let curdist := vect_dist pos (g_pos gat) in
      let below_min := match mindist with
                       | None => true
                       | Some m => if Rlt_dec curdist m then true else false
                       end in
      if below_min && (if Rlt_dec curdist rad then true else false)
      then closest_loop pos rad (S i) rest (Z.of_nat i) (Some curdist)
      else closest_loop pos rad (S i) rest curg mindist
  end.

Definition gatherable_getClosest (st : GState) (pos : vec) (rad : R) : Z :=
  closest_loop pos rad 0 (gatherable_stack st) (-1)%Z None.

Definition GATHER_DIST : R := 30.

(** Messages given to [player_message]. *)
Inductive Msg :=
| Gathered (q : Z) (com : nat)    (* "%d tons of %s gathered" *)
| NoMoreSpace                      (* "No more cargo space available" *)
| CannotGather.                    (* "Cannot gather material: ..." *)

(** The pilot, seen through the calls [gatherable_gather] makes:
    [pilot_cargoAdd(p, type, RNG(1,5), 0)] gives the new pilot state (the
    draw included) and the quantity added; [pilot_cargoFree];
    [pilot_isPlayer]; the position [p->solid->pos]. *)
Variable PilotState : Type.
Variable pilot_cargoAdd : PilotState -> nat -> PilotState * Z.
Variable pilot_cargoFree : PilotState -> Z.
Variable pilot_isPlayer : bool.
Variable ppos : vec.

(** The loop of [gatherable_gather]: after a removal the index is
    incremented as usual. *)
Fixpoint gather_loop (fuel i : nat) (l : list Gatherable) (p : PilotState)
    (noscoop : R) (msgs : list Msg) : list Gatherable * PilotState * R * list Msg :=
  match fuel with
  | O => (l, p, noscoop, msgs)
  | S f =>
      match nth_error l i with
      | None => (l, p, noscoop, msgs)
      | Some gat =>
          if Rlt_dec (vect_dist ppos (g_pos gat)) GATHER_DIST then
            let '(p', q) := pilot_cargoAdd p (g_type gat) in
            if Z.ltb 0 q then
              let msgs1 := if pilot_isPlayer then msgs ++ [Gathered q (g_type gat)] else msgs in
              let msgs2 := if Z.ltb (pilot_cargoFree p') 1 && pilot_isPlayer
                           then msgs1 ++ [NoMoreSpace] else msgs1 in
              gather_loop f (S i) (remove_nth i l) p' noscoop msgs2
            else if pilot_isPlayer && (if Rlt_dec 2 noscoop then true else false)
            then gather_loop f (S i) l p' 0 (msgs ++ [CannotGather])
            else gather_loop f (S i) l p' noscoop msgs
          else gather_loop f (S i) l p noscoop msgs
      end
  end.

Definition gatherable_gather (st : GState) (p : PilotState)
  : GState * PilotState * list Msg :=
  let '(l, p', ns, msgs) :=
    gather_loop (List.length (gatherable_stack st)) 0 (gatherable_stack st) p
                (noscoop_timer st) [] in
  (mkGS l ns, p', msgs).

End WithDist.
End Gatherables.

(** ** Global average price ([economy_getAveragePrice]) *)
Module Average.
Import Universe Catalog Evaluator.

(** The per-planet step of the double loop. *)
Definition avg_step (stack : list Commodity) (name : string)
    (acc : R * R * Z) (p : Planet) : R * R * Z :=
  let '(av, av2, cnt) := acc in
  match planet_index stack p name with
  | None => acc
  | Some k =>
      match nth_error (pl_commodityPrice p) k with
      | None => acc                 (* not reachable: parallel arrays *)
      | Some cp =>
          if Z.ltb 0 (cp_cnt cp) then
            (av + IZR (cp_sum cp) / IZR (cp_cnt cp),
             av2 + IZR (cp_sum cp) * IZR (cp_sum cp) / IZR (wrap_int (cp_cnt cp * cp_cnt cp)),
             (cnt + 1)%Z)
          else acc
      end
  end.

(** [economy_getAveragePrice] for [com = &commodity_stack[k]]: (return
    value, *mean, *std, warnings). *)
Definition economy_getAveragePrice (econ_comm : list nat) (stack : list Commodity)
    (systems : list StarSystem) (k : nat) : Z * Z * R * list string :=
  let name := Initializer.cname stack k in
  if negb (econ_priced econ_comm k) then
    (1%Z, 0%Z, 0, ["Average price for commodity '" ++ name ++ "' not known."]%string)
  else
    let '(av, av2, cnt) :=
      fold_left (fun acc sys => fold_left (avg_step stack name) (sys_planets sys) acc)
                systems (0, 0, 0%Z) in
    let '(av', av2') :=
      if Z.ltb 0 cnt
      then let a := av / IZR cnt in (a, sqrt (av2 / IZR cnt - a * a))
      else (av, av2) in
    (0%Z, c_trunc (av' + 0.5), av2', []).

End Average.

(** ** Lifecycle ([economy_init], [economy_refresh], [economy_addQueuedUpdate],
    [economy_execQueued], [economy_destroy]) *)
Module Lifecycle.
Import Universe Solver.

(** The solver state with the admittance matrix [econ_G] ([None] for
    NULL). *)
Record World := mkWorld { w_econ : Econ; econ_G : option Network.triplets }.

Definition set_sys_prices (s : StarSystem) (ps : list R) : StarSystem :=
  {| sys_name := sys_name s; sys_faction := sys_faction s;
     sys_nebu_density := sys_nebu_density s;
     sys_nebu_volatility := sys_nebu_volatility s;
     sys_interference := sys_interference s; sys_radius := sys_radius s;
     sys_jumps := sys_jumps s; sys_planets := sys_planets s; sys_prices := ps |}.

Section Life.
Variables areEnemies areAllies : Z -> Z -> bool.
Variable solve : Network.triplets -> list R -> Z * list R.

(** [economy_refresh]: [econ_createGMatrix] (which returns 0 or ends the
    program), then [economy_update(0)]. *)
Definition economy_refresh (w : World) : Z * World * list string :=
  if negb (econ_initialized (w_econ w)) then (0%Z, w, [])
  else
    let G := Network.econ_createGMatrix areEnemies areAllies (econ_stack (w_econ w)) in
    let '(_, e', warns) := economy_update solve G 0 (w_econ w) in
    (0%Z, mkWorld e' (Some G), warns).

(** [economy_init]: [calloc(econ_nprices, sizeof(double))] gives zeros. *)
Definition economy_init (w : World) : Z * World * list string :=
  let e := w_econ w in
  if econ_initialized e then (0%Z, w, [])
  else
    let stack' := map (fun s => set_sys_prices s (repeat 0 (econ_nprices e))) (econ_stack e) in
    let '(_, w', warns) :=
      economy_refresh (mkWorld (mkEcon true (econ_queued e) (econ_nprices e) stack') (econ_G w)) in
    (0%Z, w', warns).

Definition economy_addQueuedUpdate (w : World) : World :=
  let e := w_econ w in
  mkWorld (mkEcon (econ_initialized e) (econ_queued e + 1) (econ_nprices e) (econ_stack e))
          (econ_G w).

Definition economy_execQueued (w : World) : Z * World * list string :=
  if negb (Z.eqb (econ_queued (w_econ w)) 0) then economy_refresh w else (0%Z, w, []).

(** [economy_destroy]: prices freed and set to NULL ([[]]), [econ_G]
    freed. *)
Definition economy_destroy (w : World) : World :=
  let e := w_econ w in
  if negb (econ_initialized e) then w
  else mkWorld (mkEcon false (econ_queued e) (econ_nprices e)
                       (map (fun s => set_sys_prices s []) (econ_stack e))) None.

End Life.
End Lifecycle.

(** ** [economy_averageSeenPricesAtTime] *)
Module ObservationAt.
Import Universe Catalog Evaluator Observation.

(** Entries not yet stamped at the current time [t = ntime_get()] are
    stamped [t] and record the price at [tupdate]. *)
Definition economy_averageSeenPricesAtTime (stp_div : R) (econ_comm : list nat)
    (stack : list Commodity) (t tupdate : Z) (p : Planet) : Planet :=
  Initializer.set_commodityPrice p
    (Initializer.map2 (fun k cp =>
       if Z.ltb (cp_updateTime cp) t then
         let price := fst (economy_getPriceAtTime stp_div econ_comm stack k p tupdate) in
         set_obs cp (cp_sum cp + price) (cp_sum2 cp + wrap_int64 (price * price))
                 (cp_cnt cp + 1) t
       else cp) (pl_commodities p) (pl_commodityPrice p)).

End ObservationAt.

(** * Properties *)

(** ** Commodity lookup *)
Module CatalogFacts.
Import Catalog.

Lemma find_from_shift : forall s n i,
  find_from (S i) s n = option_map S (find_from i s n).
Proof.
  induction s as [|c s IH]; intros n i; simpl; [reflexivity|].
  destruct (String.eqb (com_name c) n); [reflexivity|apply IH].
Qed.

Lemma find_from_some : forall s n i,
  find_from 0 s n = Some i <->
  (exists c, nth_error s i = Some c /\ com_name c = n) /\
  (forall j c, (j < i)%nat -> nth_error s j = Some c -> com_name c <> n).
Proof.
  induction s as [|c s IH]; intros n i; simpl.
  - split; [discriminate|]. intros [[c [Hc _]] _]. destruct i; discriminate.
  - destruct (String.eqb (com_name c) n) eqn:E.
    + apply String.eqb_eq in E. split.
      * intros H; inversion H; subst. split; [exists c; auto|].
        intros j c' Hj; lia.
      * intros [_ Hmin]. destruct i as [|i]; [reflexivity|].
        exfalso. apply (Hmin 0%nat c); [lia|reflexivity|exact E].
    + apply String.eqb_neq in E. rewrite find_from_shift.
      destruct i as [|i].
      * split; [destruct (find_from 0 s n); discriminate|].
        intros [[c' [Hc' Hn]] _]. simpl in Hc'. inversion Hc'; subst. contradiction.
      * split.
        -- intros H. destruct (find_from 0 s n) as [i'|] eqn:F; [|discriminate].
           simpl in H. inversion H; subst. apply (IH n i) in F as [Hex Hmin].
           split; [exact Hex|]. intros [|j] c' Hj Hj'; simpl in Hj'.
           ++ inversion Hj'; subst; exact E.
           ++ apply (Hmin j); [lia|exact Hj'].
        -- intros [Hex Hmin]. assert (F : find_from 0 s n = Some i).
           { apply (IH n i). split; [exact Hex|]. intros j c' Hj Hj'.
             apply (Hmin (S j)); [lia|exact Hj']. }
           rewrite F. reflexivity.
Qed.

Lemma find_from_none : forall s n,
  find_from 0 s n = None <-> (forall c, In c s -> com_name c <> n).
Proof.
  induction s as [|c s IH]; intros n; simpl.
  - split; [intros _ c []|reflexivity].
  - destruct (String.eqb (com_name c) n) eqn:E.
    + apply String.eqb_eq in E. split; [discriminate|].
      intros H. exfalso. exact (H c (or_introl eq_refl) E).
    + apply String.eqb_neq in E. rewrite find_from_shift.
      destruct (find_from 0 s n) eqn:F; simpl.
      * split; [discriminate|]. intros H. exfalso.
        assert (Hs : forall c, In c s -> com_name c <> n) by (intros; apply H; auto).
        apply IH in Hs. congruence.
      * split; [|reflexivity]. intros _ c' [<-|Hin]; [exact E|].
        apply (proj1 (IH n)); [exact F|exact Hin].
Qed.

(** C10: [commodity_get] and [commodity_getW] return the same result for
    every name, namely the first commodity whose name matches exactly, or
    NULL when none matches; [commodity_get] only adds a warning on a miss. *)
Theorem commodity_get_getW_same : forall stack name,
  fst (commodity_get stack name) = commodity_getW stack name /\
  (forall i, commodity_getW stack name = Some i <->
     (exists c, nth_error stack i = Some c /\ com_name c = name) /\
     (forall j c, (j < i)%nat -> nth_error stack j = Some c -> com_name c <> name)) /\
  (commodity_getW stack name = None <-> (forall c, In c stack -> com_name c <> name)).
Proof.
  intros stack name. unfold commodity_get, commodity_getW. split; [|split].
  - destruct (find_from 0 stack name); reflexivity.
  - intros i. apply find_from_some.
  - apply find_from_none.
Qed.

End CatalogFacts.

(** ** Jump resistance *)
Module NetworkFacts.
Import Universe Network.

Section Resistance.
Variables areEnemies areAllies : Z -> Z -> bool.
(** faction.c never makes two factions both enemies and allies. *)
Hypothesis relations_disjoint :
  forall a b, areAllies a b = true -> areEnemies a b = false.

(** C9: with non-negative nebula scalars the resistance is strictly
    positive and is [30 + (dA+dB)/1000 + (vA+vB)/100], plus [0.1*30] for
    enemies, minus [0.1*30] for allies, unchanged when a faction is [-1]
    or the factions are neither. *)
Theorem econ_calcJumpR_spec : forall A B,
  0 <= sys_nebu_density A -> 0 <= sys_nebu_density B ->
  0 <= sys_nebu_volatility A -> 0 <= sys_nebu_volatility B ->
  let base := ECON_BASE_RES + (sys_nebu_density A + sys_nebu_density B) / 1000
              + (sys_nebu_volatility A + sys_nebu_volatility B) / 100 in
  let R := econ_calcJumpR areEnemies areAllies A B in
  0 < R /\
  (sys_faction A <> (-1)%Z -> sys_faction B <> (-1)%Z ->
   areEnemies (sys_faction A) (sys_faction B) = true ->
   R = base + ECON_FACTION_MOD * ECON_BASE_RES) /\
  (sys_faction A <> (-1)%Z -> sys_faction B <> (-1)%Z ->
   areAllies (sys_faction A) (sys_faction B) = true ->
   R = base - ECON_FACTION_MOD * ECON_BASE_RES) /\
  (sys_faction A = (-1)%Z \/ sys_faction B = (-1)%Z \/
   (areEnemies (sys_faction A) (sys_faction B) = false /\
    areAllies (sys_faction A) (sys_faction B) = false) ->
   R = base).
Proof.
  intros A B HdA HdB HvA HvB base R. subst base R.
  unfold econ_calcJumpR, ECON_BASE_RES, ECON_FACTION_MOD.
  destruct (Z.eqb_spec (sys_faction A) (-1)) as [EA|EA];
  destruct (Z.eqb_spec (sys_faction B) (-1)) as [EB|EB]; simpl;
  [repeat split; intros; try contradiction; lra ..|].
  destruct (areEnemies (sys_faction A) (sys_faction B)) eqn:En.
  - repeat split; intros; try lra.
    + rewrite relations_disjoint in En; [discriminate|assumption].
    + destruct H as [H|[H|[H _]]]; [contradiction|contradiction|discriminate].
  - destruct (areAllies (sys_faction A) (sys_faction B)) eqn:Al;
    repeat split; intros; try lra; try discriminate.
    destruct H as [H|[H|[_ H]]]; [contradiction|contradiction|discriminate].
Qed.

End Resistance.

Lemma econ_calcJumpR_spec_witness :
  let A := mkSys "A" 1 0 0 0 0 [1%nat] [] [] in
  let B := mkSys "B" 2 0 0 0 0 [0%nat] [] [] in
  0 < econ_calcJumpR (fun _ _ => true) (fun _ _ => false) A B.
Proof.
  intros A B.
  assert (H1 : 0 <= sys_nebu_density A) by (simpl; lra).
  assert (H2 : 0 <= sys_nebu_density B) by (simpl; lra).
  assert (H3 : 0 <= sys_nebu_volatility A) by (simpl; lra).
  assert (H4 : 0 <= sys_nebu_volatility B) by (simpl; lra).
  exact (proj1 (econ_calcJumpR_spec (fun _ _ => true) (fun _ _ => false)
                  (fun _ _ H => match Bool.diff_false_true H with end)
                  A B H1 H2 H3 H4)).
Defined.

Lemma econ_calcJumpR_plain : forall ae aa A B,
  sys_faction A = (-1)%Z -> sys_nebu_density A = 0 -> sys_nebu_density B = 0 ->
  sys_nebu_volatility A = 0 -> sys_nebu_volatility B = 0 ->
  econ_calcJumpR ae aa A B = 30.
Proof.
  intros ae aa A B HA H1 H2 H3 H4. unfold econ_calcJumpR, ECON_BASE_RES.
  rewrite HA, H1, H2, H3, H4. simpl. lra.
Qed.

(** C6 failing input: two neutral systems joined by a jump route listed at
    both ends.  Each system's loop enters the pair [(i,j)], [(j,i)], so the
    off-diagonal entry is entered twice, [-(1/30) - (1/30)], while the
    diagonal holds [1/30 + 1/3]: it is not the row's off-diagonal
    magnitude plus [1/ECON_SELF_RES]. *)
Lemma econ_createGMatrix_two_systems :
  let A := mkSys "A" (-1) 0 0 0 0 [1%nat] [] [] in
  let B := mkSys "B" (-1) 0 0 0 0 [0%nat] [] [] in
  let G := econ_createGMatrix (fun _ _ => false) (fun _ _ => false) [A; B] in
  entry G 0 0 = 1 / 30 + 1 / 3 /\ entry G 0 1 = - (2 / 30) /\
  entry G 0 0 <> Rabs (entry G 0 1) + 1 / ECON_SELF_RES.
Proof.
  intros A B G.
  assert (E00 : entry G 0 0 = 1 / 30 + 1 / 3).
  { subst G. unfold entry, econ_createGMatrix, sys_entries.
    cbn -[econ_calcJumpR].
    repeat (rewrite econ_calcJumpR_plain by reflexivity).
    unfold ECON_SELF_RES. lra. }
  assert (E01 : entry G 0 1 = - (2 / 30)).
  { subst G. unfold entry, econ_createGMatrix, sys_entries.
    cbn -[econ_calcJumpR].
    repeat (rewrite econ_calcJumpR_plain by reflexivity). lra. }
  split; [exact E00|split; [exact E01|]].
  rewrite E00, E01, Rabs_Ropp, Rabs_right by lra. unfold ECON_SELF_RES. lra.
Qed.

(** Eleven neutral systems, each joined to the ten others. *)
Definition k11 : list StarSystem :=
  map (fun i => mkSys "S" (-1) 0 0 0 0
                  (filter (fun j => negb (Nat.eqb j i)) (seq 0 11)) [] [])
      (seq 0 11).

(** With the doubled off-diagonal entries, the admittance matrix of [k11]
    maps the all-ones vector to zero: it is singular. *)
Lemma econ_createGMatrix_k11_singular : forall i, (i < 11)%nat ->
  gaxpy (econ_createGMatrix (fun _ _ => false) (fun _ _ => false) k11)
        (fun _ => 1) i = 0.
Proof.
  intros i Hi. unfold gaxpy, econ_createGMatrix, sys_entries, k11.
  do 11 (destruct i as [|i];
         [cbn -[econ_calcJumpR];
          repeat (rewrite econ_calcJumpR_plain by reflexivity);
          unfold ECON_SELF_RES; lra|]).
  lia.
Qed.

End NetworkFacts.

(** ** Helpers on the parallel-array walks *)
Module ListFacts.
Import Initializer.

Lemma map2_nth_error : forall {A B C} (f : A -> B -> C) l1 l2 i,
  nth_error (map2 f l1 l2) i =
  match nth_error l1 i, nth_error l2 i with
  | Some a, Some b => Some (f a b)
  | _, _ => None
  end.
Proof.
  intros A B C f l1; induction l1 as [|a l1 IH]; intros [|b l2] [|i]; simpl;
    try reflexivity.
  - destruct (nth_error l1 i); reflexivity.
  - apply IH.
Qed.

Lemma in_map2 : forall {A B C} (f : A -> B -> C) l1 l2 x,
  In x (map2 f l1 l2) -> exists a b, x = f a b.
Proof.
  intros A B C f l1; induction l1 as [|a l1 IH]; intros [|b l2] x; simpl;
    try contradiction.
  intros [<-|H]; [eauto|eapply IH; eauto].
Qed.

Lemma in_map2_mem : forall {A B C} (f : A -> B -> C) l1 l2 x,
  In x (map2 f l1 l2) -> exists a b, In a l1 /\ In b l2 /\ x = f a b.
Proof.
  intros A B C f l1; induction l1 as [|a l1 IH]; intros [|b l2] x; simpl;
    try contradiction.
  intros [<-|H].
  - exists a, b. auto.
  - destruct (IH l2 x H) as [a' [b' [Ha [Hb ->]]]]. exists a', b'. auto.
Qed.

Lemma map2_length : forall {A B C} (f : A -> B -> C) l1 l2,
  List.length (map2 f l1 l2) = Nat.min (List.length l1) (List.length l2).
Proof.
  intros A B C f l1; induction l1 as [|a l1 IH]; intros [|b l2]; simpl;
    try reflexivity.
  rewrite IH. reflexivity.
Qed.

Lemma map2_fixed : forall {A B} (g : A -> B -> B) l1 l2,
  (List.length l2 <= List.length l1)%nat ->
  (forall a b, In b l2 -> g a b = b) -> map2 g l1 l2 = l2.
Proof.
  intros A B g l1; induction l1 as [|a l1 IH]; intros [|b l2] Hl Hg; simpl in *;
    try reflexivity; try lia.
  rewrite Hg by auto. rewrite IH; auto. lia.
Qed.

End ListFacts.

(** ** Observation recording *)
(** ** Rounding facts *)
Module RoundingFacts.
Import Evaluator.

Lemma Int_part_of : forall x n, IZR n <= x < IZR n + 1 -> Int_part x = n.
Proof.
  intros x n [H1 H2]. unfold Int_part.
  assert (Hu : (n + 1)%Z = up x).
  { apply tech_up; rewrite plus_IZR; lra. }
  lia.
Qed.

Lemma c_trunc_nonneg : forall x, 0 <= x -> c_trunc x = Int_part x.
Proof.
  intros x Hx. unfold c_trunc. destruct (Rle_dec 0 x); [reflexivity|lra].
Qed.

Lemma c_trunc_half : forall n, (0 <= n)%Z -> c_trunc (IZR n + 0.5) = n.
Proof.
  intros n Hn. apply IZR_le in Hn. rewrite c_trunc_nonneg by lra.
  apply Int_part_of. lra.
Qed.

End RoundingFacts.

(** ** Price evaluator facts *)
Module EvaluatorFacts.
Import Universe Catalog Evaluator RoundingFacts.

(** C5 (code bug): the query means to round ([+0.5 to round]) but the
    cast [(credits_t)] truncates toward zero, so every sum below -1/2
    misses.  Base 1, planet amplitude 3 and period 4, no system term,
    queried at [t = 3]: the sum is the integer [1 + 3 sin(3 pi / 2) = -2],
    which any rounding keeps; the code truncates [-1.5] toward zero and
    returns [-1]. *)
Lemma getPriceAtTime_negative_not_rounded :
  let stack := [mkCommodity "Food" 100 200 0 [] [] 0] in
  let cp := mkCP 1 4 1 3 0 0 0 0 0 in
  let p := mkPlanet "Earth" "M" 0 0 39 0 [0%nat] [cp] in
  fst (economy_getPriceAtTime 1 [0%nat] stack 0 p 3) = (-1)%Z /\
  price_spec 1 cp 3 = (-2)%Z.
Proof.
  intros stack cp p.
  assert (Hs : sin (2 * PI * stp_time 1 3 / 4) = -1).
  { unfold stp_time. replace (2 * PI * (IZR 3 / 1) / 4) with (3 * (PI / 2)) by field.
    exact sin_3PI2. }
  split.
  - unfold economy_getPriceAtTime. cbn -[sin PI Rdiv Rmult Rplus IZR stp_time].
    rewrite Hs, Rmult_0_l, Rplus_0_r.
    unfold c_trunc. destruct (Rle_dec 0 (1 + 3 * -1 + 0.5)) as [H|_]; [lra|].
    replace (- (1 + 3 * -1 + 0.5)) with (IZR 1 + 0.5) by (simpl; lra).
    rewrite <- c_trunc_nonneg by (simpl; lra). rewrite c_trunc_half by lia.
    reflexivity.
  - unfold price_spec. cbn -[sin PI Rdiv Rmult Rplus IZR stp_time].
    rewrite Hs, Rmult_0_l, Rplus_0_r. apply Int_part_of. simpl. lra.
Qed.



End EvaluatorFacts.


Module ObservationFacts.
Import Universe Catalog Evaluator Observation ListFacts RoundingFacts.

(** C7: recording the observations of a planet at time [t] leaves every
    entry whose last-recorded time is not earlier than [t] unchanged, so a
    second recording at the same [t] changes nothing. *)
Theorem averageSeenPrices_once_per_instant : forall stp_div econ_comm stack t p,
  (forall i k cp,
     nth_error (pl_commodities p) i = Some k ->
     nth_error (pl_commodityPrice p) i = Some cp ->
     (t <= cp_updateTime cp)%Z ->
     nth_error (pl_commodityPrice
       (economy_averageSeenPrices stp_div econ_comm stack t p)) i = Some cp) /\
  economy_averageSeenPrices stp_div econ_comm stack t
    (economy_averageSeenPrices stp_div econ_comm stack t p)
  = economy_averageSeenPrices stp_div econ_comm stack t p.
Proof.
  intros stp_div econ_comm stack t p. split.
  - intros i k cp Hk Hcp Ht. unfold economy_averageSeenPrices. simpl.
    rewrite map2_nth_error, Hk, Hcp.
    destruct (Z.ltb_spec (cp_updateTime cp) t); [lia|reflexivity].
  - unfold economy_averageSeenPrices at 1.
    set (p1 := economy_averageSeenPrices stp_div econ_comm stack t p).
    assert (Hfix : Initializer.map2 (fun k cp =>
        if Z.ltb (cp_updateTime cp) t then
          let price := fst (economy_getPriceAtTime stp_div econ_comm stack k p1 t) in
          set_obs cp (cp_sum cp + price) (cp_sum2 cp + wrap_int64 (price * price)) (cp_cnt cp + 1) t
        else cp) (pl_commodities p1) (pl_commodityPrice p1) = pl_commodityPrice p1).
    { apply map2_fixed.
      - subst p1. unfold economy_averageSeenPrices. simpl.
        rewrite map2_length. lia.
      - intros k cp Hin. subst p1. unfold economy_averageSeenPrices in Hin.
        simpl in Hin. apply in_map2 in Hin as [k' [cp' ->]].
        destruct (Z.ltb_spec (cp_updateTime cp') t).
        + simpl. replace (t <? t)%Z with false by (symmetry; apply Z.ltb_irrefl).
          reflexivity.
        + destruct (Z.ltb_spec (cp_updateTime cp') t); [lia|reflexivity]. }
    cbv zeta in Hfix. rewrite Hfix. destruct p1; reflexivity.
Qed.

(** Witness for C7: an entry recorded at time 5, queried again at time 5. *)
Lemma averageSeenPrices_once_per_instant_witness :
  let cp := mkCP 100 0 0 0 0 100 10000 1 5 in
  let p := mkPlanet "Earth" "M" 0 0 39 0 [0%nat] [cp] in
  nth_error (pl_commodityPrice (economy_averageSeenPrices 1 [0%nat]
    [mkCommodity "Food" 100 200 0 [] [] 0] 5 p)) 0 = Some cp.
Proof.
  intros cp p.
  exact (proj1 (averageSeenPrices_once_per_instant 1 [0%nat]
                  [mkCommodity "Food" 100 200 0 [] [] 0] 5 p) 0%nat 0%nat cp
                  eq_refl eq_refl (Z.le_refl 5)).
Defined.

(** C4 refuted: the return code does not tell an unobserved entry from an
    observed one.  With count 0 the query returns code 0, mean 0 and
    deviation 0; with count 1 it returns code 0 as well. *)
Lemma getAveragePlanetPrice_no_unobserved_signal :
  let stack := [mkCommodity "Food" 100 200 0 [] [] 0] in
  let p0 := mkPlanet "Earth" "M" 0 0 39 0 [0%nat] [mkCP 100 0 0 0 0 0 0 0 0] in
  let p1 := mkPlanet "Earth" "M" 0 0 39 0 [0%nat] [mkCP 100 0 0 0 0 5 25 1 3] in
  economy_getAveragePlanetPrice [0%nat] stack 0 p0 = (0%Z, 0%Z, 0) /\
  fst (fst (economy_getAveragePlanetPrice [0%nat] stack 0 p1)) = 0%Z.
Proof. split; reflexivity. Qed.

Lemma wrap_int64_small : forall z, (- 2 ^ 63 <= z < 2 ^ 63)%Z -> wrap_int64 z = z.
Proof.
  intros z Hz. unfold wrap_int64.
  rewrite Z.mod_small by (change (2 ^ 64)%Z with (2 ^ 63 + 2 ^ 63)%Z; lia). lia.
Qed.

Lemma wrap_int_small : forall z, (- 2 ^ 31 <= z < 2 ^ 31)%Z -> wrap_int z = z.
Proof.
  intros z Hz. unfold wrap_int.
  rewrite Z.mod_small by (change (2 ^ 32)%Z with (2 ^ 31 + 2 ^ 31)%Z; lia). lia.
Qed.

(** C4 (amended): for a priced good found on the planet at index [i]
    whose entry has count 0, the average query returns (0, 0, 0),
    whatever the sums hold: the same code 0 as for an observed entry.
    From the cleared state (count and both sums 0, last time before
    [t]), one recording at time [t] of a price [P] with
    [0 <= P < 3037000500] (so that the [credits_t] product [P*P] does not
    overflow) makes it return (0, P, 0). *)
Theorem getAveragePlanetPrice_zero_then_one :
  forall stp_div econ_comm stack k p i cp t,
  econ_priced econ_comm k = true ->
  planet_index stack p (Initializer.cname stack k) = Some i ->
  nth_error (pl_commodityPrice p) i = Some cp ->
  cp_cnt cp = 0%Z ->
  economy_getAveragePlanetPrice econ_comm stack k p = (0%Z, 0%Z, 0) /\
  (forall k', nth_error (pl_commodities p) i = Some k' ->
   cp_sum cp = 0%Z -> cp_sum2 cp = 0%Z -> (cp_updateTime cp < t)%Z ->
   let P := fst (economy_getPriceAtTime stp_div econ_comm stack k' p t) in
   (0 <= P < 3037000500)%Z ->
   economy_getAveragePlanetPrice econ_comm stack k
     (economy_averageSeenPrices stp_div econ_comm stack t p) = (0%Z, P, 0)).
Proof.
  intros stp_div econ_comm stack k p i cp t Hk Hi Hcp Hc.
  split.
  - unfold economy_getAveragePlanetPrice. rewrite Hk. cbn [negb]. rewrite Hi, Hcp, Hc.
    reflexivity.
  - intros k' Hk' Hs Hs2 Ht P HP.
    unfold economy_getAveragePlanetPrice. rewrite Hk. cbn [negb].
    assert (Hidx : planet_index stack
              (economy_averageSeenPrices stp_div econ_comm stack t p)
              (Initializer.cname stack k) = Some i) by exact Hi.
    rewrite Hidx. unfold economy_averageSeenPrices at 1.
    cbn [pl_commodityPrice Initializer.set_commodityPrice].
    rewrite map2_nth_error, Hk', Hcp.
    destruct (Z.ltb_spec (cp_updateTime cp) t) as [_|]; [|lia].
    cbv zeta. fold P. unfold set_obs; cbn [cp_cnt cp_sum cp_sum2].
    rewrite Hc, Hs, Hs2. cbn [Z.add Z.ltb Z.compare].
    rewrite (wrap_int64_small (P * P)) by nia.
    replace (wrap_int (1 * 1)) with 1%Z by reflexivity.
    replace (IZR P / 1) with (IZR P) by field.
    rewrite c_trunc_half by lia.
    replace (IZR (P * P) / 1 - IZR P * IZR P / IZR 1) with 0
      by (rewrite mult_IZR; simpl; field).
    rewrite sqrt_0. reflexivity.
Qed.

(** Witness for C4: a constant-price entry (amplitudes 0, base 100),
    recorded once at time 3. *)
Lemma getAveragePlanetPrice_zero_then_one_witness :
  let stack := [mkCommodity "Food" 100 200 0 [] [] 0] in
  let p := mkPlanet "Earth" "M" 0 0 39 0 [0%nat] [mkCP 100 50 40 0 0 0 0 0 0] in
  economy_getAveragePlanetPrice [0%nat] stack 0 p = (0%Z, 0%Z, 0) /\
  economy_getAveragePlanetPrice [0%nat] stack 0
    (economy_averageSeenPrices 1 [0%nat] stack 3 p)
  = (0%Z, fst (economy_getPriceAtTime 1 [0%nat] stack 0 p 3), 0).
Proof.
  intros stack p.
  assert (HP : fst (economy_getPriceAtTime 1 [0%nat] stack 0 p 3) = 100%Z).
  { unfold economy_getPriceAtTime. cbn -[sin PI Rdiv Rmult Rplus IZR stp_time].
    rewrite !Rmult_0_l, !Rplus_0_r. exact (c_trunc_half 100 ltac:(lia)). }
  destruct (getAveragePlanetPrice_zero_then_one 1 [0%nat] stack 0 p 0
              (mkCP 100 50 40 0 0 0 0 0 0) 3 eq_refl eq_refl eq_refl eq_refl) as [H1 H2].
  split; [exact H1|].
  apply (H2 0%nat eq_refl eq_refl eq_refl).
  - cbn. lia.
  - rewrite HP. lia.
Defined.

End ObservationFacts.

(** ** Equilibrium update *)
Module SolverFacts.
Import Universe Solver.

Lemma set_nth_nth_error : forall {A} (l : list A) j v j',
  nth_error (set_nth j v l) j' =
  if Nat.eqb j j' then option_map (fun _ => v) (nth_error l j) else nth_error l j'.
Proof.
  intros A l; induction l as [|a l IH]; intros j v j'.
  - destruct (Nat.eqb j j'), j, j'; reflexivity.
  - destruct j as [|j], j' as [|j']; simpl; try reflexivity.
    apply IH.
Qed.

Lemma set_nth_length : forall {A} (l : list A) j v,
  List.length (set_nth j v l) = List.length l.
Proof.
  intros A l; induction l as [|a l IH]; intros [|j] v; simpl; auto.
Qed.

Lemma store_prices_length : forall j X sc off i l,
  List.length (store_prices j X sc off i l) = List.length l.
Proof.
  intros j X sc off i l; revert i; induction l as [|s l IH]; intros i; simpl; auto.
Qed.

Lemma store_prices_nth : forall j X sc off l i0 i s,
  nth_error l i = Some s ->
  exists s', nth_error (store_prices j X sc off i0 l) i = Some s' /\
             sys_prices s' = set_nth j (nth (i0 + i) X 0 * sc + off) (sys_prices s).
Proof.
  intros j X sc off l; induction l as [|s0 l IH]; intros i0 [|i] s H; simpl in H;
    try discriminate.
  - inversion H; subst. eexists; split; [reflexivity|]. simpl.
    rewrite Nat.add_0_r. reflexivity.
  - destruct (IH (S i0) i s H) as [s' [H1 H2]]. exists s'. split; [exact H1|].
    rewrite H2. replace (S i0 + i)%nat with (i0 + S i)%nat by lia. reflexivity.
Qed.

Lemma intensities_zero : forall dt j (l : list StarSystem),
  map (fun s => econ_calcSysI dt s j) l = repeat 0 (List.length l).
Proof. intros dt j l; induction l as [|s l IH]; simpl; [reflexivity|now rewrite IH]. Qed.

Definition solve_warning : string := "Failed to solve the Economy System.".

Lemma update_loop_spec :
  forall solve G dt n j0 stack0 warns,
  let ret := fst (solve G (repeat 0 (List.length stack0))) in
  let X' := snd (solve G (repeat 0 (List.length stack0))) in
  let r := update_loop solve G dt j0 n stack0 warns in
  snd r = warns ++ (if Z.eqb ret 1 then [] else repeat solve_warning n) /\
  List.length (fst r) = List.length stack0 /\
  forall i s, nth_error stack0 i = Some s ->
    exists s', nth_error (fst r) i = Some s' /\
    forall j, nth_error (sys_prices s') j =
      if Nat.leb j0 j && Nat.ltb j (j0 + n)
      then option_map (fun _ => nth i X' 0 * 1 + 1) (nth_error (sys_prices s) j)
      else nth_error (sys_prices s) j.
Proof.
  intros solve G dt n. induction n as [|n IH]; intros j0 stack0 warns ret X' r.
  - subst r. simpl. split; [destruct (Z.eqb ret 1); simpl; rewrite app_nil_r; reflexivity|].
    split; [reflexivity|]. intros i s H. exists s. split; [exact H|].
    intros j. destruct (Nat.leb j0 j && Nat.ltb j (j0 + 0)) eqn:E; [|reflexivity].
    apply andb_true_iff in E as [E1 E2]. apply Nat.leb_le in E1.
    apply Nat.ltb_lt in E2. lia.
  - subst r. simpl update_loop. unfold update_one.
    rewrite intensities_zero.
    fold ret X'. destruct (solve G (repeat 0 (List.length stack0))) as [rt X0] eqn:Es.
    simpl in ret, X'. subst ret X'.
    change ["Failed to solve the Economy System."%string] with [solve_warning].
    set (stack1 := store_prices j0 X0 1 1 0 stack0).
    set (warns1 := if Z.eqb rt 1 then warns else warns ++ [solve_warning]).
    assert (Hlen : List.length stack1 = List.length stack0)
      by apply store_prices_length.
    destruct (IH (S j0) stack1 warns1) as [Hw [Hl Hn]].
    rewrite Hlen, Es in Hw, Hn. cbn [fst snd] in Hw, Hn.
    split; [|split].
    + rewrite Hw. subst warns1. destruct (Z.eqb rt 1); simpl;
        [rewrite !app_nil_r; reflexivity|rewrite <- app_assoc; reflexivity].
    + rewrite Hl. exact Hlen.
    + intros i s H. destruct (store_prices_nth j0 X0 1 1 stack0 0 i s H)
        as [s1 [H1 H2]].
      destruct (Hn i s1 H1) as [s' [H3 H4]]. exists s'. split; [exact H3|].
      intros j. rewrite H4, H2, set_nth_nth_error.
      destruct (Nat.eqb_spec j0 j) as [<-|Ne].
      * rewrite Nat.leb_refl. replace (Nat.leb (S j0) j0) with false
          by (symmetry; apply Nat.leb_gt; lia).
        replace (Nat.ltb j0 (j0 + S n)) with true
          by (symmetry; apply Nat.ltb_lt; lia). simpl.
        destruct (nth_error (sys_prices s) j0); reflexivity.
      * destruct (Nat.leb_spec (S j0) j); destruct (Nat.leb_spec j0 j);
        destruct (Nat.ltb_spec j (S j0 + n)); destruct (Nat.ltb_spec j (j0 + S n));
        simpl; try reflexivity; try lia.
Qed.

(** C1 (as the code does it): [economy_update] on an initialized economy
    returns 0 and clears the queue; when the solve of a good does not
    return 1 a warning is issued for it, and in every case the potential
    of every system for every good [j < econ_nprices] is overwritten with
    [X[i]*1 + 1], [X] being the vector the solver left: a failed solve does
    not keep the previous potentials. *)
Theorem economy_update_solver_failure : forall solve G dt st,
  econ_initialized st = true ->
  let ret := fst (solve G (repeat 0 (List.length (econ_stack st)))) in
  let X' := snd (solve G (repeat 0 (List.length (econ_stack st)))) in
  let r := economy_update solve G dt st in
  fst (fst r) = 0%Z /\ econ_queued (snd (fst r)) = 0%Z /\
  snd r = (if Z.eqb ret 1 then [] else repeat solve_warning (econ_nprices st)) /\
  forall i s, nth_error (econ_stack st) i = Some s ->
    exists s', nth_error (econ_stack (snd (fst r))) i = Some s' /\
    forall j, nth_error (sys_prices s') j =
      if Nat.ltb j (econ_nprices st)
      then option_map (fun _ => nth i X' 0 * 1 + 1) (nth_error (sys_prices s) j)
      else nth_error (sys_prices s) j.
Proof.
  intros solve G dt st Hinit ret X' r. subst r. unfold economy_update.
  rewrite Hinit. simpl negb. cbv iota.
  destruct (update_loop_spec solve G dt (econ_nprices st) 0 (econ_stack st) [])
    as [Hw [_ Hn]].
  destruct (update_loop solve G dt 0 (econ_nprices st) (econ_stack st) [])
    as [stack' warns] eqn:E. cbn [fst snd] in *.
  split; [reflexivity|split; [reflexivity|split]].
  - rewrite Hw. reflexivity.
  - intros i s H. destruct (Hn i s H) as [s' [H1 H2]]. exists s'.
    split; [exact H1|]. intros j. rewrite H2. reflexivity.
Qed.

(** C1 refuted: a solver reporting failure and leaving the intensity
    vector as it was; the previous potential 2 becomes 0*1 + 1 = 1. *)
Lemma economy_update_failure_not_retained :
  let s := mkSys "A" (-1) 0 0 0 0 [] [] [2] in
  let st := mkEcon true 1 1 [s] in
  let solve := fun (_ : Network.triplets) (X : list R) => (0%Z, X) in
  let r := economy_update solve [] 0 st in
  fst (solve [] [0]) <> 1%Z /\
  snd r = [solve_warning] /\
  map sys_prices (econ_stack (snd (fst r))) <> map sys_prices (econ_stack st).
Proof.
  intros s st solve r. subst r. split; [discriminate|split; [reflexivity|]].
  simpl. intros H. injection H as H. unfold econ_calcSysI in H. lra.
Qed.

Lemma economy_update_solver_failure_witness :
  let st := mkEcon true 1 1 [mkSys "A" (-1) 0 0 0 0 [] [] [2]] in
  let solve := fun (_ : Network.triplets) (X : list R) => (0%Z, X) in
  econ_initialized st = true /\
  snd (economy_update solve [] 0 st) = [solve_warning].
Proof.
  intros st solve. split; [reflexivity|].
  destruct (economy_update_solver_failure solve [] 0 st eq_refl)
    as [_ [_ [H _]]].
  exact H.
Defined.

End SolverFacts.

(** ** Price initializer *)
Module InitializerFacts.
Import Universe Catalog Initializer ListFacts.

(** C2 failing input: a commodity whose by-faction table prices goods of
    faction "Empire" at 2.0 and whose by-planet-class table is empty.  The
    code looks the faction name up in the by-planet-class table, so the
    factor applied is 1.0 (price 100), whereas the by-faction table gives
    2.0 (price 200). *)
Lemma economy_calcPrice_ignores_faction_table :
  let com := mkCommodity "Food" 100 200 0 [] [("Empire"%string, 2)] 0 in
  let cp := mkCP 100 0 0 0 0 0 0 0 0 in
  let pl := mkPlanet "Earth" "M" 0 0 39 0 [0%nat] [cp] in
  let fname := fun _ : Z => "Empire"%string in
  cp_price (economy_calcPrice fname 20 pl com cp) = 100 /\
  cp_price (calcPrice_spec fname 20 pl com cp) = 200.
Proof.
  intros com cp pl fname.
  unfold economy_calcPrice, calcPrice_spec, calcPrice_with. simpl. split; lra.
Qed.

(** C3 refuted: a planet with presence range 60.  Nothing clamps the
    presence term, so [1 - 60/30 = -1] and Pass 1 makes the planet period
    negative; Passes 2-4 keep its sign. *)
Lemma initialise_presence_range_negative_period :
  let com := mkCommodity "Food" 100 200 0 [] [] 0 in
  let cp := mkCP 100 0 0 0 0 0 0 0 0 in
  let pl := mkPlanet "Earth" "M" 0 0 39 60 [0%nat] [cp] in
  let sys := mkSys "Sol" (-1) 0 0 0 0 [] [pl] [] in
  let res := economy_initialiseCommodityPrices (fun _ => "Empire"%string) 20 [com] [sys] in
  exists sys' pl' cp', In sys' (snd res) /\ In pl' (sys_planets sys') /\
    In cp' (pl_commodityPrice pl') /\ cp_planetPeriod cp' < 0.
Proof.
  intros com cp pl sys res.
  do 3 eexists. split; [simpl; left; reflexivity|].
  split; [simpl; left; reflexivity|]. split; [simpl; left; reflexivity|].
  cbn.
  replace (1 - 60 / 30) with (-1) by lra.
  replace (1 - 0 / 200000) with 1 by lra.
  replace (1 / -1) with (-1) by field. lra.
Qed.

(** *** Positivity through the four passes *)

Lemma tanh_bounds : forall x, -1 < tanh x < 1.
Proof.
  intros x. unfold tanh, sinh, cosh.
  pose proof (exp_pos x) as Ha. pose proof (exp_pos (- x)) as Hb.
  set (a := exp x) in *. set (b := exp (- x)) in *.
  set (q := (a - b) / 2 / ((a + b) / 2)).
  assert (Hq : q * (a + b) = a - b) by (subst q; field; lra).
  split; nra.
Qed.

Lemma modifier_lookup_nonneg : forall key cm,
  (forall n v, In (n, v) cm -> 0 <= v) -> 0 <= modifier_lookup key cm.
Proof.
  intros key cm; induction cm as [|[n v] cm IH]; intros H; simpl; [lra|].
  destruct (String.eqb key n); [apply (H n v); left; reflexivity|].
  apply IH. intros n' v' Hin. apply (H n' v'). right; exact Hin.
Qed.

Lemma size_sub_nonneg : forall a b, (0 <= size_sub a b)%Z.
Proof. intros a b. unfold size_sub. apply Z.mod_pos_bound. lia. Qed.

(** What the passes keep: after Pass 1 ([good1]), after Pass 2
    ([good2]), and the final statement ([good_final]). *)
Definition good1 (cp : CommodityPrice) : Prop :=
  0 <= cp_price cp /\ 0 < cp_planetPeriod cp /\ 0 < cp_planetVariation cp /\
  0 <= cp_sysVariation cp.

Definition good2 (cp : CommodityPrice) : Prop :=
  good1 cp /\ 0 < cp_sysPeriod cp.

Definition good_final (cp : CommodityPrice) : Prop :=
  0 < cp_planetPeriod cp /\ 0 < cp_sysPeriod cp /\
  0 <= cp_planetVariation cp /\ 0 <= cp_sysVariation cp.

Definition av_good (a : AvPrice) : Prop :=
  (1 <= av_n a)%Z /\ 0 <= av_price a /\ 0 < av_planetPeriod a /\
  0 < av_sysPeriod a /\ 0 < av_planetVariation a /\ 0 <= av_sysVariation a /\
  0 <= av_sum a.

(** The input ranges under which the passes keep periods positive. *)
Definition commodity_ok (c : Commodity) : Prop :=
  (forall n v, In (n, v) (com_planet_modifier c) -> 0 <= v) /\
  -1 <= com_population_modifier c <= 1 /\ -100 < com_period c.

Definition planet_ok (nstack : nat) (pl : Planet) : Prop :=
  IZR (pl_presenceRange pl) < 30 /\
  (forall k, In k (pl_commodities pl) -> (k < nstack)%nat) /\
  (forall cp, In cp (pl_commodityPrice pl) -> 0 <= cp_price cp).

Definition sys_scalars_ok (s : StarSystem) : Prop :=
  0 <= sys_radius s < 200000 /\ 0 <= sys_nebu_volatility s /\
  0 <= sys_interference s.

Definition system_ok (nstack : nat) (s : StarSystem) : Prop :=
  sys_scalars_ok s /\ (forall pl, In pl (sys_planets s) -> planet_ok nstack pl).

Lemma calcPrice_good1 : forall fname epl pl c cp,
  commodity_ok c -> IZR (pl_presenceRange pl) < 30 -> 0 <= cp_price cp ->
  good1 (economy_calcPrice fname epl pl c cp).
Proof.
  intros fname epl pl c cp [Hmod [Hpop Hper]] Hpr Hp.
  unfold economy_calcPrice, calcPrice_with, good1. cbn [cp_price cp_planetPeriod
    cp_planetVariation cp_sysVariation].
  set (factor := if Z.ltb 0 (pl_population pl)
                 then tanh ((ln (IZR (pl_population pl)) - ln (10 ^ 8)) / 2) else -1).
  assert (Hf : -1 <= factor <= 1).
  { subst factor. destruct (Z.ltb 0 (pl_population pl));
      [pose proof (tanh_bounds ((ln (IZR (pl_population pl)) - ln (10 ^ 8)) / 2)); lra|lra]. }
  pose proof (modifier_lookup_nonneg (pl_class pl) _ Hmod) as H1.
  pose proof (modifier_lookup_nonneg (fname (pl_faction pl)) _ Hmod) as H3.
  pose proof (size_sub_nonneg (size_sub (pl_gfx_exterior_len pl) epl) 19) as Hs.
  apply IZR_le in Hs.
  set (s2 := 1 + IZR (size_sub (size_sub (pl_gfx_exterior_len pl) epl) 19) / 100).
  assert (Hs2 : 0 < s2) by (subst s2; lra).
  assert (Hpf : 0 <= 1 + factor * com_population_modifier c) by nra.
  assert (Hd : 0 < 1 - IZR (pl_presenceRange pl) / 30) by lra.
  repeat split.
  - apply Rmult_le_pos; [|lra]. apply Rmult_le_pos; [|exact H3].
    apply Rmult_le_pos; [|exact Hpf]. apply Rmult_le_pos; assumption.
  - apply Rmult_lt_0_compat; [|apply Rdiv_pos_pos; lra].
    apply Rmult_lt_0_compat; [|lra]. apply Rmult_lt_0_compat; lra.
  - lra.
  - lra.
Qed.

Lemma modify_cp_good2 : forall sys cp,
  sys_scalars_ok sys -> good1 cp -> good2 (modify_cp sys cp).
Proof.
  intros sys cp [Hr [Hv Hi]] [Hp [Hpp [Hpv Hsv]]].
  unfold modify_cp, set_prices, good2, good1; cbn [cp_price cp_planetPeriod
    cp_planetVariation cp_sysVariation cp_sysPeriod].
  pose proof (pos_INR (List.length (sys_jumps sys))) as Hn.
  repeat split.
  - apply Rmult_le_pos; [|lra]. apply Rmult_le_pos; [|lra].
    apply Rmult_le_pos; lra.
  - apply Rmult_lt_0_compat; [lra|apply Rdiv_pos_pos; lra].
  - apply Rmult_lt_0_compat; [lra|apply Rdiv_pos_pos; lra].
  - lra.
  - apply Rdiv_pos_pos; lra.
Qed.

Lemma av_add_good : forall av name cp,
  Forall av_good av -> good2 cp -> Forall av_good (av_add av name cp).
Proof.
  intros av name cp; induction av as [|a av IH]; intros Hav Hcp;
    destruct Hcp as [[Hp [Hpp [Hpv Hsv]]] Hsp]; simpl.
  - constructor; [|constructor]. unfold av_good; simpl; repeat split; (lia || lra).
  - inversion Hav as [|? ? Ha Hrest]; subst.
    destruct (String.eqb name (av_name a)).
    + constructor; [|exact Hrest].
      destruct Ha as [Hn [Ha1 [Ha2 [Ha3 [Ha4 [Ha5 Ha6]]]]]].
      unfold av_good; simpl; repeat split; lia || lra.
    + constructor; [exact Ha|]. apply IH; [exact Hrest|].
      repeat split; assumption.
Qed.

Lemma av_fold_good : forall (f : nat -> string) (l : list (nat * CommodityPrice)) av,
  Forall av_good av -> (forall k cp, In (k, cp) l -> good2 cp) ->
  Forall av_good (fold_left (fun av '(k, cp) => av_add av (f k) cp) l av).
Proof.
  intros f l; induction l as [|[k cp] l IH]; intros av Hav Hl; simpl; [exact Hav|].
  apply IH.
  - apply av_add_good; [exact Hav|]. apply (Hl k cp). left; reflexivity.
  - intros k' cp' Hin. apply (Hl k' cp'). right; exact Hin.
Qed.

Lemma av_divide_good : forall a, av_good a -> av_good (av_divide a).
Proof.
  intros a [Hn [H1 [H2 [H3 [H4 [H5 H6]]]]]].
  pose proof Hn as Hn'. apply IZR_le in Hn'.
  unfold av_good, av_divide; simpl. repeat split; try exact H6; try exact Hn.
  - apply Rmult_le_pos; [lra|]. left. apply Rinv_0_lt_compat. lra.
  - apply Rdiv_pos_pos; lra.
  - apply Rdiv_pos_pos; lra.
  - apply Rdiv_pos_pos; lra.
  - apply Rmult_le_pos; [lra|]. left. apply Rinv_0_lt_compat. lra.
Qed.

Lemma apply_av_good2 : forall av name cp,
  Forall av_good av -> good2 cp -> good2 (apply_av av name cp).
Proof.
  intros av name. unfold apply_av. induction av as [|a av IH]; intros cp Hav Hcp;
    simpl; [exact Hcp|].
  inversion Hav as [|? ? Ha Hrest]; subst. apply IH; [exact Hrest|].
  destruct (String.eqb name (av_name a)); [|exact Hcp].
  destruct Hcp as [[Hp [Hpp [Hpv Hsv]]] Hsp].
  destruct Ha as [Hn [Ha1 [Ha2 [Ha3 [Ha4 [Ha5 Ha6]]]]]].
  unfold good2, good1, set_prices; simpl. repeat split; lra.
Qed.

Lemma calcPrice_planet_good1 : forall fname epl stack pl cp,
  Forall commodity_ok stack -> planet_ok (List.length stack) pl ->
  In cp (pl_commodityPrice (calcPrice_planet fname epl stack pl)) -> good1 cp.
Proof.
  intros fname epl stack pl cp Hstack [Hpr [Hk Hp]] Hin.
  unfold calcPrice_planet, set_commodityPrice in Hin; cbn [pl_commodityPrice] in Hin.
  destruct (in_map2_mem _ _ _ _ Hin) as [k [cp0 [Hink [Hincp ->]]]].
  specialize (Hk k Hink).
  destruct (nth_error stack k) as [c|] eqn:Hc.
  - apply calcPrice_good1; [| exact Hpr | apply Hp; exact Hincp].
    rewrite Forall_forall in Hstack. apply Hstack. eapply nth_error_In; exact Hc.
  - apply nth_error_None in Hc. lia.
Qed.

Lemma av_planets_fold_good : forall (stack : list Commodity) (pls : list Planet) av,
  Forall av_good av ->
  (forall pl cp, In pl pls -> In cp (pl_commodityPrice pl) -> good2 cp) ->
  Forall av_good (fold_left (fun av pl =>
              fold_left (fun av '(k, cp) => av_add av (cname stack k) cp)
                        (combine (pl_commodities pl) (pl_commodityPrice pl)) av)
            pls av).
Proof.
  intros stack pls; induction pls as [|pl pls IH]; intros av Hav Hpls; simpl;
    [exact Hav|].
  apply IH.
  - apply av_fold_good; [exact Hav|]. intros k cp Hin.
    apply (Hpls pl cp); [left; reflexivity|]. eapply in_combine_r; exact Hin.
  - intros pl' cp Hpl Hcp. apply (Hpls pl' cp); [right; exact Hpl|exact Hcp].
Qed.

Lemma modifySystem_good : forall stack sys,
  sys_scalars_ok sys ->
  (forall pl cp, In pl (sys_planets sys) -> In cp (pl_commodityPrice pl) -> good1 cp) ->
  Forall av_good (snd (economy_modifySystemCommodityPrice stack sys)) /\
  (forall pl cp, In pl (sys_planets (fst (economy_modifySystemCommodityPrice stack sys))) ->
     In cp (pl_commodityPrice pl) -> good2 cp).
Proof.
  intros stack sys Hs Hcps.
  unfold economy_modifySystemCommodityPrice; cbn [fst snd].
  set (pls1 := map (fun pl => set_commodityPrice pl
                     (map (modify_cp sys) (pl_commodityPrice pl)))
                  (sys_planets sys)).
  assert (H1 : forall pl cp, In pl pls1 -> In cp (pl_commodityPrice pl) -> good2 cp).
  { intros pl cp Hpl Hcp. subst pls1. apply in_map_iff in Hpl.
    destruct Hpl as [pl0 [<- Hpl0]]. cbn [pl_commodityPrice set_commodityPrice] in Hcp.
    apply in_map_iff in Hcp. destruct Hcp as [cp0 [<- Hcp0]].
    apply modify_cp_good2; [exact Hs|]. apply (Hcps pl0 cp0); assumption. }
  assert (Hav : Forall av_good (map av_divide (fold_left (fun av pl =>
              fold_left (fun av '(k, cp) => av_add av (cname stack k) cp)
                        (combine (pl_commodities pl) (pl_commodityPrice pl)) av)
            pls1 []))).
  { apply Forall_map. eapply Forall_impl; [exact av_divide_good|].
    apply av_planets_fold_good; [constructor|exact H1]. }
  split; [exact Hav|].
  intros pl cp Hpl Hcp. unfold set_planets in Hpl; cbn [sys_planets] in Hpl.
  apply in_map_iff in Hpl. destruct Hpl as [pl1 [<- Hpl1]].
  cbn [pl_commodityPrice set_commodityPrice] in Hcp.
  destruct (in_map2_mem _ _ _ _ Hcp) as [k [cp1 [_ [Hcp1 ->]]]].
  apply apply_av_good2; [exact Hav|]. apply (H1 pl1 cp1); assumption.
Qed.

Lemma av_find_in : forall name av a, av_find name av = Some a -> In a av.
Proof.
  intros name av; induction av as [|b av IH]; intros a H; simpl in H; [discriminate|].
  destruct (String.eqb (av_name b) name); [injection H as <-; left; reflexivity|].
  right. apply IH. exact H.
Qed.

Lemma smooth_fold_nonneg : forall (avs : list (list AvPrice)) name l p n,
  (forall nav, In nav avs -> Forall av_good nav) -> 0 <= p ->
  0 <= fst (fold_left (fun '(price, n) t =>
        match nth_error avs t with
        | Some nav =>
            match av_find name nav with
            | Some b => (price + av_price b, (n + 1)%nat)
            | None => (price, n)
            end
        | None => (price, n)
        end) l (p, n)).
Proof.
  intros avs name l; induction l as [|t l IH]; intros p n Havs Hp; simpl; [exact Hp|].
  destruct (nth_error avs t) as [nav|] eqn:Ht; [|apply IH; assumption].
  destruct (av_find name nav) as [b|] eqn:Hb; [|apply IH; assumption].
  apply IH; [exact Havs|].
  assert (Hg : av_good b).
  { pose proof (Havs nav (nth_error_In _ _ Ht)) as Hn. rewrite Forall_forall in Hn.
    apply Hn. eapply av_find_in; exact Hb. }
  destruct Hg as [_ [Hbp _]]. lra.
Qed.

Lemma smooth_good : forall avs sys av,
  (forall nav, In nav avs -> Forall av_good nav) -> Forall av_good av ->
  Forall av_good (economy_smoothCommodityPrice avs sys av).
Proof.
  intros avs sys av Havs Hav. unfold economy_smoothCommodityPrice.
  apply Forall_map. eapply Forall_impl; [|exact Hav].
  intros a Ha.
  pose proof (smooth_fold_nonneg avs (av_name a) (sys_jumps sys) 0 0 Havs (Rle_refl 0))
    as Hf.
  destruct (fold_left _ (sys_jumps sys) (0, 0%nat)) as [price n].
  cbn [fst] in Hf.
  destruct Ha as [Hn [H1 [H2 [H3 [H4 [H5 H6]]]]]].
  unfold av_good; cbn [av_n av_price av_planetPeriod av_sysPeriod av_planetVariation
    av_sysVariation av_sum]. repeat split; try assumption.
  destruct (Nat.eqb n 0) eqn:Hn0; [exact H1|].
  apply Nat.eqb_neq in Hn0.
  apply Rmult_le_pos; [exact Hf|]. left. apply Rinv_0_lt_compat. apply lt_0_INR. lia.
Qed.

Lemma final_cp_good : forall a cp,
  0 <= av_price a -> 0 <= av_planetVariation a -> good2 cp -> good_final (final_cp a cp).
Proof.
  intros a cp Ha Hv [[Hp [Hpp [Hpv Hsv]]] Hsp].
  unfold final_cp, set_prices, good_final; cbn [cp_price cp_planetPeriod
    cp_planetVariation cp_sysVariation cp_sysPeriod].
  assert (Hpr : 0 <= 0.25 * cp_price cp + 0.75 * av_price a) by lra.
  repeat split; try assumption.
  - apply Rmult_le_pos; [|exact Hpr]. lra.
  - apply Rmult_le_pos; assumption.
Qed.

Lemma calcUpdated_good : forall stack sys av,
  Forall av_good av ->
  (forall pl cp, In pl (sys_planets sys) -> In cp (pl_commodityPrice pl) -> good2 cp) ->
  forall pl cp, In pl (sys_planets (economy_calcUpdatedCommodityPrice stack sys av)) ->
    In cp (pl_commodityPrice pl) -> good_final cp.
Proof.
  intros stack sys av Hav Hcps pl cp Hpl Hcp.
  unfold economy_calcUpdatedCommodityPrice, set_planets in Hpl; cbn [sys_planets] in Hpl.
  apply in_map_iff in Hpl. destruct Hpl as [pl0 [<- Hpl0]].
  cbn [pl_commodityPrice set_commodityPrice] in Hcp.
  destruct (in_map2_mem _ _ _ _ Hcp) as [k [cp0 [_ [Hcp0 ->]]]].
  pose proof (Hcps pl0 cp0 Hpl0 Hcp0) as Hg.
  match goal with |- context [av_find (cname stack k) ?l] =>
    destruct (av_find (cname stack k) l) as [b|] eqn:Hb end.
  - apply av_find_in, in_map_iff in Hb. destruct Hb as [a [<- Ha]].
    rewrite Forall_forall in Hav. destruct (Hav a Ha) as [_ [H1 [_ [_ [H4 [_ H6]]]]]].
    apply final_cp_good; cbn [av_price av_planetVariation]; [lra|lra|exact Hg].
  - destruct Hg as [[Hp [Hpp [Hpv Hsv]]] Hsp]. unfold good_final.
    repeat split; lra.
Qed.

Lemma pass1_system_good : forall fname epl stack sys,
  Forall commodity_ok stack -> system_ok (List.length stack) sys ->
  let sys1 := set_planets sys (map (calcPrice_planet fname epl stack) (sys_planets sys)) in
  sys_scalars_ok sys1 /\
  (forall pl cp, In pl (sys_planets sys1) -> In cp (pl_commodityPrice pl) -> good1 cp).
Proof.
  intros fname epl stack sys Hstack [Hs Hpls] sys1. split; [exact Hs|].
  intros pl cp Hpl Hcp. subst sys1. unfold set_planets in Hpl; cbn [sys_planets] in Hpl.
  apply in_map_iff in Hpl. destruct Hpl as [pl0 [<- Hpl0]].
  eapply calcPrice_planet_good1; [exact Hstack| apply Hpls; exact Hpl0 | exact Hcp].
Qed.

(** C3 (amended): with every presence range below 30 and the other input
    ranges of [commodity_ok] and [system_ok], every price entry produced
    by [economy_initialiseCommodityPrices] has strictly positive planet
    and system periods and non-negative planet and system amplitudes.
    (Nothing in the code enforces the presence-range bound; see
    [initialise_presence_range_negative_period].) *)
Theorem initialise_periods_positive : forall fname epl stack systems,
  Forall commodity_ok stack -> Forall (system_ok (List.length stack)) systems ->
  forall sys pl cp,
    In sys (snd (economy_initialiseCommodityPrices fname epl stack systems)) ->
    In pl (sys_planets sys) -> In cp (pl_commodityPrice pl) -> good_final cp.
Proof.
  intros fname epl stack systems Hstack Hsys sys pl cp Hin Hpl Hcp.
  unfold economy_initialiseCommodityPrices in Hin; cbv zeta in Hin; cbn [snd] in Hin.
  set (s1 := map (fun sys => set_planets sys
                   (map (calcPrice_planet fname epl stack) (sys_planets sys))) systems) in *.
  assert (H1 : forall sys1, In sys1 s1 -> sys_scalars_ok sys1 /\
    (forall pl cp, In pl (sys_planets sys1) -> In cp (pl_commodityPrice pl) -> good1 cp)).
  { intros sys1 Hs1. subst s1. apply in_map_iff in Hs1. destruct Hs1 as [sys0 [<- Hs0]].
    rewrite Forall_forall in Hsys.
    exact (pass1_system_good fname epl stack sys0 Hstack (Hsys sys0 Hs0)). }
  set (s2 := map (economy_modifySystemCommodityPrice stack) s1) in *.
  assert (H2 : forall p, In p s2 -> Forall av_good (snd p) /\
    (forall pl cp, In pl (sys_planets (fst p)) -> In cp (pl_commodityPrice pl) -> good2 cp)).
  { intros p Hp. subst s2. apply in_map_iff in Hp. destruct Hp as [sys1 [<- Hs1]].
    destruct (H1 sys1 Hs1) as [Hsc Hc]. apply modifySystem_good; assumption. }
  assert (Havs : forall nav, In nav (map snd s2) -> Forall av_good nav).
  { intros nav Hnav. apply in_map_iff in Hnav. destruct Hnav as [p [<- Hp]].
    apply (H2 p Hp). }
  apply in_map_iff in Hin. destruct Hin as [[sys3 av3] [Heq Hin3]].
  apply in_map_iff in Hin3. destruct Hin3 as [[sys2 av2] [Heq3 Hin2]].
  injection Heq3 as <- <-. subst sys.
  destruct (H2 _ Hin2) as [Hav2 Hc2]; cbn [fst snd] in Hav2, Hc2.
  eapply calcUpdated_good; [| exact Hc2 | exact Hpl | exact Hcp].
  apply smooth_good; assumption.
Qed.

(** Witness: one system with one planet of presence range 10. *)
Lemma initialise_periods_positive_witness :
  let com := mkCommodity "Food" 100 200 0 [] [] 0 in
  let cp := mkCP 100 0 0 0 0 0 0 0 0 in
  let pl := mkPlanet "Earth" "M" 0 0 39 10 [0%nat] [cp] in
  let sys := mkSys "Sol" (-1) 0 0 0 0 [] [pl] [] in
  Forall commodity_ok [com] /\ Forall (system_ok 1) [sys] /\
  (forall sys' pl' cp',
     In sys' (snd (economy_initialiseCommodityPrices (fun _ => "Empire"%string) 20
                     [com] [sys])) ->
     In pl' (sys_planets sys') -> In cp' (pl_commodityPrice pl') -> good_final cp').
Proof.
  intros com cp pl sys.
  assert (Hc : Forall commodity_ok [com]).
  { constructor; [|constructor]. unfold commodity_ok; cbn.
    split; [intros n v []|]. split; [lra|lra]. }
  assert (Hs : Forall (system_ok 1) [sys]).
  { constructor; [|constructor]. unfold system_ok, sys_scalars_ok; cbn.
    split; [lra|]. intros pl' [<-|[]]. unfold planet_ok; cbn. split; [lra|].
    split; [intros k [<-|[]]; lia|]. intros cp' [<-|[]]; cbn; lra. }
  split; [exact Hc|]. split; [exact Hs|].
  exact (initialise_periods_positive _ _ _ _ Hc Hs).
Defined.

End InitializerFacts.

(** ** Save / load round trip *)
Module PersistFacts.
Import Universe Catalog Initializer Evaluator Observation Persist CatalogFacts.

(** Shapes of the state used by the round trip. *)
Definition map_planets (g : Planet -> Planet) (ss : list StarSystem) : list StarSystem :=
  map (fun s => set_planets s (map g (sys_planets s))) ss.

Definition planet_names (ss : list StarSystem) : list string :=
  flat_map (fun s => map pl_name (sys_planets s)) ss.

(** What a saved entry becomes after the reload: itself when it was
    observed, zeroed otherwise. *)
Definition restore (cp : CommodityPrice) : CommodityPrice :=
  if Z.ltb 0 (cp_cnt cp) then cp else set_obs cp 0 0 0 0.

Definition restore_planet (p : Planet) : Planet :=
  set_commodityPrice p (map restore (pl_commodityPrice p)).

(** The entries [economy_sysSave] writes for one planet. *)
Definition ents (stack : list Commodity) (sname : string) (p : Planet) : list Entry :=
  flat_map (fun '(k, cp) =>
    if Z.ltb 0 (cp_cnt cp) then
      [{| e_sys := sname; e_planet := pl_name p; e_com := cname stack k;
          e_sum := cp_sum cp; e_sum2 := cp_sum2 cp; e_cnt := cp_cnt cp;
          e_time := cp_updateTime cp |}]
    else [])
    (combine (pl_commodities p) (pl_commodityPrice p)).

Lemma set_nth_app : forall {A} (l1 : list A) x y l2,
  set_nth (List.length l1) x (l1 ++ y :: l2) = l1 ++ x :: l2.
Proof. intros A l1; induction l1 as [|a l1 IH]; intros x y l2; simpl; congruence. Qed.

Lemma nth_error_app_len : forall {A} (l1 : list A) y l2,
  nth_error (l1 ++ y :: l2) (List.length l1) = Some y.
Proof. intros A l1; induction l1 as [|a l1 IH]; intros y l2; simpl; auto. Qed.

Lemma map_set_nth : forall {A B} (f : A -> B) i v l x,
  nth_error l i = Some x -> f v = f x -> map f (set_nth i v l) = map f l.
Proof.
  intros A B f i v l; revert i; induction l as [|a l IH]; intros [|i] x Hx Hf;
    simpl in *; try discriminate.
  - injection Hx as ->. rewrite Hf. reflexivity.
  - rewrite (IH i x Hx Hf). reflexivity.
Qed.

Lemma set_obs_clear_restore : forall cp,
  set_obs (set_obs cp 0 0 0 0) (cp_sum cp) (cp_sum2 cp) (cp_cnt cp) (cp_updateTime cp) = cp.
Proof. intros []; reflexivity. Qed.

Lemma cname_names : forall s1 s2, map com_name s1 = map com_name s2 ->
  forall k, cname s1 k = cname s2 k.
Proof.
  intros s1 s2 H k. unfold cname.
  assert (Hk : nth_error (map com_name s1) k = nth_error (map com_name s2) k)
    by (rewrite H; reflexivity).
  rewrite !nth_error_map in Hk.
  destruct (nth_error s1 k), (nth_error s2 k); simpl in Hk; congruence.
Qed.

Lemma planet_index_ext : forall s1 s2 p n,
  (forall k, cname s1 k = cname s2 k) -> planet_index s1 p n = planet_index s2 p n.
Proof.
  intros s1 s2 p n Hc. unfold planet_index.
  generalize (pl_commodities p) 0%nat. intros l; induction l as [|k l IH]; intros i;
    simpl; [reflexivity|].
  rewrite Hc. destruct (String.eqb (cname s2 k) n); [reflexivity|apply IH].
Qed.

Lemma planet_index_app : forall stack p pre k rest,
  pl_commodities p = pre ++ k :: rest ->
  ~ In (cname stack k) (map (cname stack) pre) ->
  planet_index stack p (cname stack k) = Some (List.length pre).
Proof.
  intros stack p pre k rest Hp Hn. unfold planet_index. rewrite Hp. clear Hp.
  change (Some (List.length pre)) with (Some (0 + List.length pre)%nat).
  generalize 0%nat as i. revert Hn. induction pre as [|k' pre IH]; intros Hn i; simpl.
  - rewrite String.eqb_refl. f_equal. lia.
  - destruct (String.eqb (cname stack k') (cname stack k)) eqn:E.
    + apply String.eqb_eq in E. exfalso. apply Hn. simpl. left. exact E.
    + rewrite (IH (fun H => Hn (or_intror H))). f_equal. lia.
Qed.
(** Loading the entries of one planet into the cleared planet: after the
    pairs [pre] have been loaded, their entries are restored and the rest
    are still cleared. *)
Lemma load_planet_entries : forall stack1 stack sname pname ks p pre_k pre_c cps,
  (forall k, cname stack1 k = cname stack k) ->
  pl_commodities p = pre_k ++ ks ->
  pl_commodityPrice p = map restore pre_c ++ map (fun cp => set_obs cp 0 0 0 0) cps ->
  List.length pre_k = List.length pre_c -> List.length ks = List.length cps ->
  NoDup (map (cname stack) (pre_k ++ ks)) ->
  fold_left (fun p e => load_into_planet stack1 e p)
    (flat_map (fun '(k, cp) =>
       if Z.ltb 0 (cp_cnt cp) then
         [{| e_sys := sname; e_planet := pname; e_com := cname stack k;
             e_sum := cp_sum cp; e_sum2 := cp_sum2 cp; e_cnt := cp_cnt cp;
             e_time := cp_updateTime cp |}]
       else []) (combine ks cps)) p
  = set_commodityPrice p (map restore (pre_c ++ cps)).
Proof.
  intros stack1 stack sname pname ks.
  induction ks as [|k ks IH]; intros p pre_k pre_c cps Hc Hk Hp Hl1 Hl2 Hnd.
  - destruct cps; [|discriminate]. cbn [combine flat_map fold_left].
    rewrite app_nil_r. cbn [map] in Hp. rewrite app_nil_r in Hp.
    destruct p; cbn in Hp; subst; reflexivity.
  - destruct cps as [|cp cps]; [discriminate|]. cbn [List.length] in Hl2.
    cbn [combine flat_map]. rewrite fold_left_app.
    assert (Hnot : ~ In (cname stack k) (map (cname stack) pre_k)).
    { rewrite map_app in Hnd; cbn [map] in Hnd. intro H.
      apply (NoDup_remove_2 _ _ _ Hnd). apply in_or_app; left; exact H. }
    assert (Hidx : planet_index stack1 p (cname stack k) = Some (List.length pre_k)).
    { rewrite (planet_index_ext stack1 stack p _ Hc).
      eapply planet_index_app; [exact Hk|exact Hnot]. }
    assert (Hnth : nth_error (pl_commodityPrice p) (List.length pre_k)
                   = Some (set_obs cp 0 0 0 0)).
    { rewrite Hp, Hl1, <- (length_map restore pre_c). cbn [map].
      apply nth_error_app_len. }
    assert (Hk' : pl_commodities p = (pre_k ++ [k]) ++ ks)
      by (rewrite Hk, <- app_assoc; reflexivity).
    assert (Hl1' : List.length (pre_k ++ [k]) = List.length (pre_c ++ [cp]))
      by (rewrite !length_app; cbn; lia).
    assert (Hl2' : List.length ks = List.length cps) by lia.
    assert (Hnd' : NoDup (map (cname stack) ((pre_k ++ [k]) ++ ks)))
      by (rewrite <- app_assoc; exact Hnd).
    destruct (Z.ltb 0 (cp_cnt cp)) eqn:Hcnt.
    + cbn [fold_left].
      assert (Hr : restore cp = cp) by (unfold restore; rewrite Hcnt; reflexivity).
      set (l' := map restore (pre_c ++ [cp]) ++ map (fun cp => set_obs cp 0 0 0 0) cps).
      assert (Hload : load_into_planet stack1
          {| e_sys := sname; e_planet := pname; e_com := cname stack k;
             e_sum := cp_sum cp; e_sum2 := cp_sum2 cp; e_cnt := cp_cnt cp;
             e_time := cp_updateTime cp |} p = set_commodityPrice p l').
      { unfold load_into_planet. cbn [e_com e_sum e_sum2 e_cnt e_time].
        rewrite Hidx, Hnth. f_equal. subst l'.
        rewrite Hp, Hl1, <- (length_map restore pre_c). cbn [map].
        rewrite set_nth_app, set_obs_clear_restore, map_app, <- app_assoc.
        cbn [map app]. rewrite Hr. reflexivity. }
      rewrite Hload.
      rewrite (IH (set_commodityPrice p l') (pre_k ++ [k]) (pre_c ++ [cp]) cps Hc Hk'
                 eq_refl Hl1' Hl2' Hnd').
      rewrite <- app_assoc. reflexivity.
    + cbn [fold_left].
      assert (Hr : restore cp = set_obs cp 0 0 0 0)
        by (unfold restore; rewrite Hcnt; reflexivity).
      assert (Hp' : pl_commodityPrice p =
                    map restore (pre_c ++ [cp]) ++ map (fun cp => set_obs cp 0 0 0 0) cps).
      { rewrite Hp, map_app, <- app_assoc. cbn [map app]. rewrite Hr. reflexivity. }
      rewrite (IH p (pre_k ++ [k]) (pre_c ++ [cp]) cps Hc Hk' Hp' Hl1' Hl2' Hnd').
      rewrite <- app_assoc. reflexivity.
Qed.

Definition clear_planet (p : Planet) : Planet :=
  set_commodityPrice p (map (fun cp => set_obs cp 0 0 0 0) (pl_commodityPrice p)).

Lemma load_planet_restores : forall stack1 stack sname p0,
  (forall k, cname stack1 k = cname stack k) ->
  NoDup (map (cname stack) (pl_commodities p0)) ->
  List.length (pl_commodities p0) = List.length (pl_commodityPrice p0) ->
  fold_left (fun p e => load_into_planet stack1 e p) (ents stack sname p0) (clear_planet p0)
  = restore_planet p0.
Proof.
  intros stack1 stack sname p0 Hc Hnd Hl. unfold ents.
  rewrite (load_planet_entries stack1 stack sname (pl_name p0) (pl_commodities p0)
             (clear_planet p0) [] [] (pl_commodityPrice p0) Hc eq_refl eq_refl eq_refl Hl Hnd).
  reflexivity.
Qed.

Lemma NoDup_app_disj : forall {A} (l1 l2 : list A) x,
  NoDup (l1 ++ l2) -> In x l1 -> ~ In x l2.
Proof.
  intros A l1; induction l1 as [|a l1 IH]; intros l2 x Hnd Hx; simpl in *; [contradiction|].
  inversion Hnd as [|? ? Ha Hnd']; subst. destruct Hx as [<-|Hx].
  - intro H. apply Ha. apply in_or_app. right. exact H.
  - apply (IH l2 x Hnd' Hx).
Qed.

Lemma map_planets_id : forall g ss,
  (forall s p, In s ss -> In p (sys_planets s) -> g p = p) -> map_planets g ss = ss.
Proof.
  intros g ss H. unfold map_planets. induction ss as [|s ss IH]; [reflexivity|].
  cbn [map]. rewrite IH by (intros s' p Hs Hp; apply (H s' p); [right|]; assumption).
  assert (Hm : map g (sys_planets s) = sys_planets s).
  { transitivity (map (fun x => x) (sys_planets s)); [|apply map_id].
    apply map_ext_in. intros p Hp. apply (H s p); [left; reflexivity|exact Hp]. }
  rewrite Hm. destruct s; reflexivity.
Qed.

Lemma map_planets_compose : forall g1 g2 ss,
  map_planets g2 (map_planets g1 ss) = map_planets (fun p => g2 (g1 p)) ss.
Proof.
  intros g1 g2 ss. unfold map_planets. rewrite map_map. apply map_ext. intros s.
  cbn [sys_planets set_planets]. rewrite map_map. reflexivity.
Qed.

Lemma map_planets_ext_in : forall g1 g2 ss,
  (forall s p, In s ss -> In p (sys_planets s) -> g1 p = g2 p) ->
  map_planets g1 ss = map_planets g2 ss.
Proof.
  intros g1 g2 ss H. unfold map_planets. apply map_ext_in. intros s Hs.
  f_equal. apply map_ext_in. intros p Hp. apply (H s p Hs Hp).
Qed.

Lemma planet_names_map_planets : forall g ss,
  (forall p, pl_name (g p) = pl_name p) -> planet_names (map_planets g ss) = planet_names ss.
Proof.
  intros g ss H. unfold planet_names, map_planets. induction ss as [|s ss IH]; [reflexivity|].
  cbn [map flat_map sys_planets set_planets]. rewrite IH, map_map.
  f_equal. apply map_ext. exact H.
Qed.

Lemma map_guard_id : forall (f : Planet -> Planet) name ps,
  ~ In name (map pl_name ps) ->
  map (fun p => if String.eqb (pl_name p) name then f p else p) ps = ps.
Proof.
  intros f name ps; induction ps as [|p ps IH]; intros Hn; [reflexivity|].
  cbn [map] in *. destruct (String.eqb (pl_name p) name) eqn:E.
  - apply String.eqb_eq in E. exfalso. apply Hn. left. exact E.
  - rewrite IH; [reflexivity|]. intro H. apply Hn. right. exact H.
Qed.

Lemma update_planet_list_none : forall name f ps,
  ~ In name (map pl_name ps) -> update_planet_list name f ps = None.
Proof.
  intros name f ps; induction ps as [|p ps IH]; intros Hn; [reflexivity|].
  cbn [update_planet_list]. cbn [map] in Hn.
  destruct (String.eqb (pl_name p) name) eqn:E.
  - apply String.eqb_eq in E. exfalso. apply Hn. left. exact E.
  - rewrite IH; [reflexivity|]. intro H. apply Hn. right. exact H.
Qed.

Lemma update_planet_list_some : forall name f ps,
  NoDup (map pl_name ps) -> In name (map pl_name ps) ->
  update_planet_list name f ps =
  Some (map (fun p => if String.eqb (pl_name p) name then f p else p) ps).
Proof.
  intros name f ps; induction ps as [|p ps IH]; intros Hnd Hin; [contradiction|].
  cbn [update_planet_list map]. cbn [map] in Hnd, Hin.
  inversion Hnd as [|? ? Hp Hnd']; subst.
  destruct (String.eqb (pl_name p) name) eqn:E.
  - apply String.eqb_eq in E. subst name. rewrite map_guard_id by exact Hp. reflexivity.
  - destruct Hin as [Hin|Hin].
    + apply String.eqb_neq in E. contradiction.
    + rewrite (IH Hnd' Hin). reflexivity.
Qed.

Lemma update_planet_some : forall name f ss,
  NoDup (planet_names ss) -> In name (planet_names ss) ->
  update_planet name f ss =
  Some (map_planets (fun p => if String.eqb (pl_name p) name then f p else p) ss).
Proof.
  intros name f ss; induction ss as [|s ss IH]; intros Hnd Hin; [contradiction|].
  unfold planet_names in Hnd, Hin; cbn [flat_map] in Hnd, Hin.
  cbn [update_planet].
  destruct (in_app_or _ _ _ Hin) as [Hs|Hr].
  - rewrite update_planet_list_some; [| exact (NoDup_app_remove_r _ _ Hnd) | exact Hs].
    unfold map_planets. cbn [map]. f_equal. f_equal.
    symmetry. apply map_planets_id. intros s' p Hs' Hp.
    destruct (String.eqb (pl_name p) name) eqn:E; [|reflexivity].
    apply String.eqb_eq in E. exfalso.
    apply (NoDup_app_disj _ _ name Hnd Hs).
    apply in_flat_map. exists s'. split; [exact Hs'|]. rewrite <- E. apply in_map. exact Hp.
  - assert (Hns : ~ In name (map pl_name (sys_planets s))).
    { intro H. apply (NoDup_app_disj _ _ name Hnd H). exact Hr. }
    rewrite update_planet_list_none by exact Hns.
    rewrite (IH (NoDup_app_remove_l _ _ Hnd) Hr). cbn [option_map].
    unfold map_planets. cbn [map]. f_equal. f_equal.
    rewrite map_guard_id by exact Hns. destruct s; reflexivity.
Qed.

Lemma load_into_planet_name : forall stack e p, pl_name (load_into_planet stack e p) = pl_name p.
Proof. intros stack e p. unfold load_into_planet. destruct (planet_index stack p (e_com e)); reflexivity. Qed.

(** The entry loop of [economy_sysLoad] with unique planet names: every
    planet receives, in document order, the entries carrying its name. *)
Lemma load_entries_fold : forall stack1 es ss,
  NoDup (planet_names ss) -> (forall e, In e es -> In (e_planet e) (planet_names ss)) ->
  fold_left (fun acc e =>
    match acc with
    | Some ss => update_planet (e_planet e) (load_into_planet stack1 e) ss
    | None => None
    end) es (Some ss)
  = Some (map_planets (fun p => fold_left (fun p e =>
      if String.eqb (pl_name p) (e_planet e) then load_into_planet stack1 e p else p) es p) ss).
Proof.
  intros stack1 es; induction es as [|e es IH]; intros ss Hnd Hin.
  - cbn [fold_left]. f_equal. symmetry. apply map_planets_id. reflexivity.
  - cbn [fold_left].
    rewrite update_planet_some by (try exact Hnd; apply Hin; left; reflexivity).
    set (g := fun p => if String.eqb (pl_name p) (e_planet e)
                       then load_into_planet stack1 e p else p).
    assert (Hg : forall p, pl_name (g p) = pl_name p).
    { intros p. subst g. cbn beta. destruct (String.eqb (pl_name p) (e_planet e));
        [apply load_into_planet_name|reflexivity]. }
    rewrite IH.
    + f_equal. rewrite map_planets_compose. reflexivity.
    + rewrite planet_names_map_planets by exact Hg. exact Hnd.
    + intros e' He'. rewrite planet_names_map_planets by exact Hg.
      apply Hin. right. exact He'.
Qed.

Lemma fold_guard_filter : forall (f : Entry -> Planet -> Planet) n es p,
  (forall e p, pl_name (f e p) = pl_name p) -> pl_name p = n ->
  fold_left (fun p e => if String.eqb (pl_name p) (e_planet e) then f e p else p) es p
  = fold_left (fun p e => f e p) (filter (fun e => String.eqb n (e_planet e)) es) p.
Proof.
  intros f n es; induction es as [|e es IH]; intros p Hf Hn; [reflexivity|].
  cbn [fold_left filter]. rewrite Hn.
  destruct (String.eqb n (e_planet e)); cbn [fold_left].
  - apply IH; [exact Hf|]. rewrite Hf. exact Hn.
  - apply IH; assumption.
Qed.

Lemma ents_planet : forall stack sname p e, In e (ents stack sname p) -> e_planet e = pl_name p.
Proof.
  intros stack sname p e He. unfold ents in He. apply in_flat_map in He.
  destruct He as [[k cp] [_ He]]. destruct (Z.ltb 0 (cp_cnt cp)); [|contradiction].
  destruct He as [<-|[]]. reflexivity.
Qed.

Lemma filter_ents : forall stack sname p n,
  filter (fun e => String.eqb n (e_planet e)) (ents stack sname p) =
  if String.eqb n (pl_name p) then ents stack sname p else [].
Proof.
  intros stack sname p n. pose proof (ents_planet stack sname p) as H.
  induction (ents stack sname p) as [|e l IH]; cbn [filter].
  - destruct (String.eqb n (pl_name p)); reflexivity.
  - rewrite (H e (or_introl eq_refl)).
    rewrite IH by (intros e' He'; apply H; right; exact He').
    destruct (String.eqb n (pl_name p)); reflexivity.
Qed.

(** The entry list of [economy_sysSave]. *)
Definition save_entries (stack : list Commodity) (ss : list StarSystem) : list Entry :=
  flat_map (fun s => flat_map (ents stack (sys_name s)) (sys_planets s)) ss.

Lemma sysSave_entries : forall stack ss, snd (economy_sysSave stack ss) = save_entries stack ss.
Proof. reflexivity. Qed.

Lemma save_entries_planet : forall stack ss e,
  In e (save_entries stack ss) -> In (e_planet e) (planet_names ss).
Proof.
  intros stack ss e He. unfold save_entries in He. apply in_flat_map in He.
  destruct He as [s [Hs He]]. apply in_flat_map in He. destruct He as [p [Hp He]].
  rewrite (ents_planet _ _ _ _ He). unfold planet_names. apply in_flat_map.
  exists s. split; [exact Hs|]. apply in_map. exact Hp.
Qed.

Lemma flat_map_none1 : forall (g : Planet -> list Entry) n ps,
  ~ In n (map pl_name ps) ->
  flat_map (fun p => if String.eqb n (pl_name p) then g p else []) ps = [].
Proof.
  intros g n ps; induction ps as [|p ps IH]; intros Hn; [reflexivity|].
  cbn [flat_map]. cbn [map] in Hn. destruct (String.eqb n (pl_name p)) eqn:E.
  - apply String.eqb_eq in E. exfalso. apply Hn. left. symmetry. exact E.
  - rewrite IH; [reflexivity|]. intro H. apply Hn. right. exact H.
Qed.

Lemma flat_map_select1 : forall (g : Planet -> list Entry) ps p0,
  NoDup (map pl_name ps) -> In p0 ps ->
  flat_map (fun p => if String.eqb (pl_name p0) (pl_name p) then g p else []) ps = g p0.
Proof.
  intros g ps p0; induction ps as [|p ps IH]; intros Hnd Hin; [contradiction|].
  cbn [map] in Hnd. inversion Hnd as [|? ? Hp Hnd']; subst. cbn [flat_map].
  destruct Hin as [<-|Hin].
  - rewrite String.eqb_refl, flat_map_none1 by exact Hp. apply app_nil_r.
  - destruct (String.eqb (pl_name p0) (pl_name p)) eqn:E.
    + apply String.eqb_eq in E. exfalso. apply Hp. rewrite <- E. apply in_map. exact Hin.
    + exact (IH Hnd' Hin).
Qed.

Lemma flat_map_none2 : forall (g : StarSystem -> Planet -> list Entry) n ss,
  ~ In n (planet_names ss) ->
  flat_map (fun s => flat_map (fun p => if String.eqb n (pl_name p) then g s p else [])
                       (sys_planets s)) ss = [].
Proof.
  intros g n ss; induction ss as [|s ss IH]; intros Hn; [reflexivity|].
  unfold planet_names in Hn; cbn [flat_map] in *.
  rewrite flat_map_none1 by (intro H; apply Hn; apply in_or_app; left; exact H).
  apply IH. intro H. apply Hn. apply in_or_app. right. exact H.
Qed.

Lemma flat_map_select2 : forall (g : StarSystem -> Planet -> list Entry) ss s0 p0,
  NoDup (planet_names ss) -> In s0 ss -> In p0 (sys_planets s0) ->
  flat_map (fun s => flat_map (fun p => if String.eqb (pl_name p0) (pl_name p)
                                         then g s p else []) (sys_planets s)) ss
  = g s0 p0.
Proof.
  intros g ss s0 p0; induction ss as [|s ss IH]; intros Hnd Hs0 Hp0; [contradiction|].
  unfold planet_names in Hnd; cbn [flat_map] in Hnd |- *.
  destruct Hs0 as [->|Hs0].
  - rewrite (flat_map_select1 (g s0)) by (try exact Hp0; exact (NoDup_app_remove_r _ _ Hnd)).
    rewrite flat_map_none2; [apply app_nil_r|].
    apply (NoDup_app_disj _ _ _ Hnd). apply in_map. exact Hp0.
  - assert (Hin : In (pl_name p0) (planet_names ss)).
    { unfold planet_names. apply in_flat_map. exists s0. split; [exact Hs0|].
      apply in_map. exact Hp0. }
    rewrite flat_map_none1.
    + exact (IH (NoDup_app_remove_l _ _ Hnd) Hs0 Hp0).
    + intro H. exact (NoDup_app_disj _ _ _ Hnd H Hin).
Qed.

Lemma filter_save_entries : forall stack ss n,
  filter (fun e => String.eqb n (e_planet e)) (save_entries stack ss) =
  flat_map (fun s => flat_map (fun p => if String.eqb n (pl_name p)
                                         then ents stack (sys_name s) p else [])
                       (sys_planets s)) ss.
Proof.
  intros stack ss n. unfold save_entries. induction ss as [|s ss IH]; [reflexivity|].
  cbn [flat_map]. rewrite filter_app, IH. f_equal.
  induction (sys_planets s) as [|p ps IHp]; [reflexivity|].
  cbn [flat_map]. rewrite filter_app, IHp, filter_ents. reflexivity.
Qed.

Lemma filter_save_entries_select : forall stack ss s0 p0,
  NoDup (planet_names ss) -> In s0 ss -> In p0 (sys_planets s0) ->
  filter (fun e => String.eqb (pl_name p0) (e_planet e)) (save_entries stack ss)
  = ents stack (sys_name s0) p0.
Proof.
  intros stack ss s0 p0 Hnd Hs Hp. rewrite filter_save_entries.
  exact (flat_map_select2 (fun s p => ents stack (sys_name s) p) ss s0 p0 Hnd Hs Hp).
Qed.

Lemma load_lastPurchase_some : forall st n v, In n (map com_name st) ->
  exists st', load_lastPurchase st n v = Some st' /\ map com_name st' = map com_name st.
Proof.
  intros st n v Hin. unfold load_lastPurchase, commodity_get.
  destruct (find_from 0 st n) as [i|] eqn:F.
  - apply find_from_some in F. destruct F as [[c [Hc _]] _].
    cbn [fst]. rewrite Hc. eexists; split; [reflexivity|].
    apply (map_set_nth com_name i _ st c Hc). reflexivity.
  - pose proof (proj1 (find_from_none st n) F) as Hnone. exfalso.
    apply in_map_iff in Hin. destruct Hin as [c [Hc Hin]]. exact (Hnone c Hin Hc).
Qed.

Lemma lastPurchase_fold : forall (lp : list (string * Z)) st,
  (forall n v, In (n, v) lp -> In n (map com_name st)) ->
  exists st', fold_left (fun acc '(n, v) =>
                match acc with Some st => load_lastPurchase st n v | None => None end)
              lp (Some st) = Some st' /\ map com_name st' = map com_name st.
Proof.
  intros lp; induction lp as [|[n v] lp IH]; intros st H.
  - exists st. split; reflexivity.
  - cbn [fold_left].
    destruct (load_lastPurchase_some st n v (H n v (or_introl eq_refl))) as [st1 [E1 N1]].
    rewrite E1.
    destruct (IH st1) as [st' [E N]].
    + intros n' v' Hin. rewrite N1. apply (H n' v'). right. exact Hin.
    + exists st'. split; [exact E|]. congruence.
Qed.

(** The average query reads the restored planet as it read the original:
    an observed entry is unchanged and an unobserved one answers
    (0, 0, 0) in both. *)
Lemma average_restore : forall econ_comm st1 stack k p,
  (forall k, cname st1 k = cname stack k) ->
  economy_getAveragePlanetPrice econ_comm st1 k (restore_planet p) =
  economy_getAveragePlanetPrice econ_comm stack k p.
Proof.
  intros econ_comm st1 stack k p Hc. unfold economy_getAveragePlanetPrice.
  rewrite Hc. destruct (negb (econ_priced econ_comm k)); [reflexivity|].
  rewrite (planet_index_ext st1 stack (restore_planet p) _ Hc).
  change (planet_index stack (restore_planet p) (cname stack k))
    with (planet_index stack p (cname stack k)).
  destruct (planet_index stack p (cname stack k)) as [i|]; [|reflexivity].
  unfold restore_planet; cbn [pl_commodityPrice set_commodityPrice].
  rewrite nth_error_map. destruct (nth_error (pl_commodityPrice p) i) as [cp|];
    cbn [option_map]; [|reflexivity].
  unfold restore. destruct (Z.ltb 0 (cp_cnt cp)) eqn:E; cbn [set_obs cp_cnt];
    rewrite ?E; reflexivity.
Qed.

(** C8 refuted: a planet whose only entry was never observed.  The save
    writes no entry for it; after the reload the average query answers
    return code 0 (found) with mean 0 and deviation 0, not "not found". *)
Lemma sysLoad_unobserved_reads_found :
  let stack := [mkCommodity "Food" 100 200 0 [] [] 0] in
  let p := mkPlanet "Earth" "M" 0 0 39 0 [0%nat] [mkCP 100 50 40 1 1 0 0 0 0] in
  let systems := [mkSys "Sol" (-1) 0 0 0 0 [] [p] []] in
  economy_sysSave stack systems = ([], []) /\
  option_map (fun r => map (fun s => map (economy_getAveragePlanetPrice [0%nat] (fst r) 0)
                                         (sys_planets s)) (snd r))
    (economy_sysLoad (economy_sysSave stack systems) stack systems)
  = Some [[(0%Z, 0%Z, 0)]].
Proof. split; reflexivity. Qed.

(** C8 (amended): when planet names are unique over all systems, and on
    each planet the goods have distinct names and one price entry each,
    reloading the saved document into the same world succeeds.  Every
    entry with a positive count gets back its sum, sum of squares, count
    and time; every other entry is zeroed; the commodity names are
    unchanged.  Hence the average query gives, for every planet and good,
    exactly the answer it gave before the save.  For an unobserved entry
    that answer is (0, 0, 0) with return code 0, the same code as "found". *)
Theorem sysLoad_sysSave_roundtrip : forall stack systems,
  NoDup (planet_names systems) ->
  (forall s p, In s systems -> In p (sys_planets s) ->
     NoDup (map (cname stack) (pl_commodities p)) /\
     List.length (pl_commodities p) = List.length (pl_commodityPrice p)) ->
  exists stack',
    economy_sysLoad (economy_sysSave stack systems) stack systems =
      Some (stack', map_planets restore_planet systems) /\
    map com_name stack' = map com_name stack /\
    (forall econ_comm s p k, In s systems -> In p (sys_planets s) ->
       economy_getAveragePlanetPrice econ_comm stack' k (restore_planet p) =
       economy_getAveragePlanetPrice econ_comm stack k p).
Proof.
  intros stack systems Hnd Hpl. unfold economy_sysLoad.
  destruct (economy_clearKnown stack systems) as [stack0 systems0] eqn:Ecl.
  unfold economy_clearKnown in Ecl. injection Ecl as E0 E1.
  assert (N0 : map com_name stack0 = map com_name stack).
  { rewrite <- E0, map_map. reflexivity. }
  assert (S0 : systems0 = map_planets clear_planet systems) by (rewrite <- E1; reflexivity).
  destruct (lastPurchase_fold (fst (economy_sysSave stack systems)) stack0) as [stack1 [Elp Nlp]].
  { intros n v H. unfold economy_sysSave in H; cbn [fst] in H.
    apply in_map_iff in H. destruct H as [c [Hc Hin]]. injection Hc as <- _.
    apply filter_In in Hin. destruct Hin as [Hin _].
    rewrite N0. apply in_map. exact Hin. }
  rewrite Elp.
  assert (Hc : forall k, cname stack1 k = cname stack k)
    by (apply cname_names; congruence).
  rewrite sysSave_entries.
  assert (Hnd0 : NoDup (planet_names systems0))
    by (rewrite S0, planet_names_map_planets by reflexivity; exact Hnd).
  rewrite load_entries_fold; [| exact Hnd0 |].
  2: { intros e He. rewrite S0, planet_names_map_planets by reflexivity.
       exact (save_entries_planet _ _ _ He). }
  exists stack1. split; [|split; [congruence|]].
  - rewrite S0, map_planets_compose. do 2 f_equal.
    apply map_planets_ext_in. intros s p Hs Hp.
    destruct (Hpl s p Hs Hp) as [Hndc Hlen].
    rewrite (fold_guard_filter (load_into_planet stack1) (pl_name p)); [| exact (load_into_planet_name stack1) | reflexivity].
    rewrite (filter_save_entries_select stack systems s p Hnd Hs Hp).
    exact (load_planet_restores stack1 stack (sys_name s) p Hc Hndc Hlen).
  - intros econ_comm s p k _ _. apply average_restore. exact Hc.
Qed.

(** Witness for C8: one planet with one observed entry. *)
Lemma sysLoad_sysSave_roundtrip_witness :
  let stack := [mkCommodity "Food" 100 200 0 [] [] 0] in
  let p := mkPlanet "Earth" "M" 0 0 39 0 [0%nat] [mkCP 100 50 40 1 1 120 14400 1 7] in
  let systems := [mkSys "Sol" (-1) 0 0 0 0 [] [p] []] in
  exists stack',
    economy_sysLoad (economy_sysSave stack systems) stack systems =
      Some (stack', map_planets restore_planet systems) /\
    map com_name stack' = map com_name stack /\
    (forall econ_comm s p k, In s systems -> In p (sys_planets s) ->
       economy_getAveragePlanetPrice econ_comm stack' k (restore_planet p) =
       economy_getAveragePlanetPrice econ_comm stack k p).
Proof.
  intros stack p systems.
  apply sysLoad_sysSave_roundtrip.
  - unfold planet_names. cbn. constructor; [intros []|constructor].
  - intros s p' [<-|[]] [<-|[]]. split; [|reflexivity].
    cbn. constructor; [intros []|constructor].
Defined.

End PersistFacts.


Module LoaderFacts.
Import Catalog Loader.

Lemma ascii_compare_lt_trans : forall a b c,
  Ascii.compare a b = Lt -> Ascii.compare b c = Lt -> Ascii.compare a c = Lt.
Proof.
  unfold Ascii.compare. intros a b c H1 H2.
  apply N.compare_lt_iff. apply N.compare_lt_iff in H1. apply N.compare_lt_iff in H2.
  exact (N.lt_trans _ _ _ H1 H2).
Qed.

Lemma string_compare_le_trans : forall a b c,
  String.compare a b <> Gt -> String.compare b c <> Gt -> String.compare a c <> Gt.
Proof.
  induction a as [|x a IH]; intros [|y b] [|z c]; simpl; try congruence.
  destruct (Ascii.compare x y) eqn:Exy; try congruence.
  - apply Ascii.compare_eq_iff in Exy; subst y.
    destruct (Ascii.compare x z); try congruence. apply IH.
  - intros _. destruct (Ascii.compare y z) eqn:Eyz; try congruence.
    + apply Ascii.compare_eq_iff in Eyz; subst z. rewrite Exy. congruence.
    + rewrite (ascii_compare_lt_trans _ _ _ Exy Eyz). congruence.
Qed.

Lemma strcmp_antisym : forall a b, strcmp b a = (- strcmp a b)%Z.
Proof.
  intros a b. unfold strcmp. rewrite (String.compare_antisym b a).
  destruct (String.compare a b); reflexivity.
Qed.

Lemma string_compare_refl : forall a, String.compare a a = Eq.
Proof.
  induction a as [|x a IH]; simpl; [reflexivity|].
  unfold Ascii.compare at 1. rewrite N.compare_refl. exact IH.
Qed.

Lemma strcmp_zero : forall a b, strcmp a b = 0%Z <-> a = b.
Proof.
  intros a b. unfold strcmp. split.
  - destruct (String.compare a b) eqn:E; try discriminate.
    intros _. apply String.compare_eq_iff. exact E.
  - intros <-. rewrite string_compare_refl. reflexivity.
Qed.

Lemma strcmp_le_trans : forall a b c,
  (strcmp a b <= 0)%Z -> (strcmp b c <= 0)%Z -> (strcmp a c <= 0)%Z.
Proof.
  intros a b c. unfold strcmp. intros H1 H2.
  assert (G : String.compare a c <> Gt).
  { apply (string_compare_le_trans a b c);
      [destruct (String.compare a b)|destruct (String.compare b c)];
      try discriminate; lia. }
  destruct (String.compare a c); [lia|lia|congruence].
Qed.

(** X1: [commodity_compareTech] is antisymmetric, and it returns 0 only on
    two commodities with the same price and the same name. *)
Theorem compareTech_antisym : forall a b,
  commodity_compareTech b a = (- commodity_compareTech a b)%Z /\
  (commodity_compareTech a b = 0%Z <-> com_price a = com_price b /\ com_name a = com_name b).
Proof.
  intros a b. unfold commodity_compareTech. split.
  - destruct (Z.ltb_spec (com_price b) (com_price a));
      destruct (Z.ltb_spec (com_price a) (com_price b)); try lia.
    apply strcmp_antisym.
  - destruct (Z.ltb_spec (com_price a) (com_price b)).
    + split; [discriminate|lia].
    + destruct (Z.ltb_spec (com_price b) (com_price a)).
      * split; [discriminate|lia].
      * rewrite strcmp_zero. split; [intros ->; split; [lia|reflexivity]|tauto].
Qed.

(** X2: [commodity_compareTech] is transitive (as a "less or equal"
    order), so [qsort] sorts by decreasing price, then by name. *)
Theorem compareTech_trans : forall a b c,
  (commodity_compareTech a b <= 0)%Z -> (commodity_compareTech b c <= 0)%Z ->
  (commodity_compareTech a c <= 0)%Z.
Proof.
  intros a b c. unfold commodity_compareTech.
  destruct (Z.ltb_spec (com_price a) (com_price b)); [lia|].
  destruct (Z.ltb_spec (com_price b) (com_price c)); [lia|].
  destruct (Z.ltb_spec (com_price a) (com_price c)); [lia|].
  destruct (Z.ltb_spec (com_price c) (com_price a)); [lia|].
  destruct (Z.ltb_spec (com_price b) (com_price a)); [lia|].
  destruct (Z.ltb_spec (com_price c) (com_price b)); [lia|].
  apply strcmp_le_trans.
Qed.

Lemma compareTech_trans_witness :
  let a := mkCommodity "Food" 100 200 0 [] [] 0 in
  let b := mkCommodity "Water" 100 200 0 [] [] 0 in
  let c := mkCommodity "Gold" 80 200 0 [] [] 0 in
  (commodity_compareTech a b <= 0)%Z /\ (commodity_compareTech b c <= 0)%Z /\
  (commodity_compareTech a c <= 0)%Z.
Proof.
  intros a b c.
  assert (H1 : (commodity_compareTech a b <= 0)%Z) by (vm_compute; discriminate).
  assert (H2 : (commodity_compareTech b c <= 0)%Z) by (vm_compute; discriminate).
  split; [exact H1|split; [exact H2|exact (compareTech_trans a b c H1 H2)]].
Defined.

(** The value the parser's tables give to [key] when read off the
    children in document order: the last <[tag]> child with that type,
    or 1 if there is none. *)
Definition last_modifier (tag key : string) (children : list XNode) : R :=
  fold_left (fun acc n => if String.eqb (x_tag n) tag && String.eqb key (x_type n)
                          then x_float n else acc) children 1.

Lemma modifier_fold : forall key ch pm fm,
  Initializer.modifier_lookup key (fst (fold_left modifier_step ch (pm, fm))) =
  fold_left (fun acc n => if String.eqb (x_tag n) "planet_modifier" && String.eqb key (x_type n)
                          then x_float n else acc) ch (Initializer.modifier_lookup key pm) /\
  Initializer.modifier_lookup key (snd (fold_left modifier_step ch (pm, fm))) =
  fold_left (fun acc n => if String.eqb (x_tag n) "faction_modifier" && String.eqb key (x_type n)
                          then x_float n else acc) ch (Initializer.modifier_lookup key fm).
Proof.
  intros key ch; induction ch as [|n ch IH]; intros pm fm; [split; reflexivity|].
  cbn [fold_left].
  assert (Hs : modifier_step (pm, fm) n =
    if String.eqb (x_tag n) "planet_modifier" then ((x_type n, x_float n) :: pm, fm)
    else if String.eqb (x_tag n) "faction_modifier" then (pm, (x_type n, x_float n) :: fm)
    else (pm, fm)) by reflexivity.
  rewrite Hs.
  destruct (String.eqb (x_tag n) "planet_modifier") eqn:E1;
    [|destruct (String.eqb (x_tag n) "faction_modifier") eqn:E2];
    cbn beta iota;
    [ destruct (IH ((x_type n, x_float n) :: pm) fm) as [H1 H2]
    | destruct (IH pm ((x_type n, x_float n) :: fm)) as [H1 H2]
    | destruct (IH pm fm) as [H1 H2] ];
    (split; [etransitivity; [exact H1|] | etransitivity; [exact H2|]]);
    rewrite ?E1, ?E2; cbn;
    destruct (String.eqb key (x_type n)); try reflexivity;
    try (apply String.eqb_eq in E1; rewrite E1; reflexivity);
    try (apply String.eqb_eq in E2; rewrite E2; reflexivity).
Qed.

(** X3: the modifier tables built by [commodity_parse], read by the lookup
    loop of [economy_calcPrice], give to a key the value of the last
    <planet_modifier> (resp. <faction_modifier>) child of that type in the
    XML, and 1 when there is none. *)
Theorem parse_modifiers_last_wins : forall key ch,
  Initializer.modifier_lookup key (fst (parse_modifiers ch)) =
    last_modifier "planet_modifier" key ch /\
  Initializer.modifier_lookup key (snd (parse_modifiers ch)) =
    last_modifier "faction_modifier" key ch.
Proof. intros key ch. apply (modifier_fold key ch [] []). Qed.

(** Stack indices of the commodities with a positive price. *)
Definition positive_indices (stack : list Commodity) : list nat :=
  filter (fun i => match nth_error stack i with
                   | Some c => Z.ltb 0 (com_price c) | None => false end)
         (seq 0 (List.length stack)).

Definition is_commodity (n : XElem) : bool :=
  el_element n && String.eqb (el_tag n) "commodity".

Definition unknown_warnings (path : string) (ch : list XElem) : list string :=
  map (fun n => ("'" ++ path ++ "' has unknown node '" ++ el_tag n ++ "'.")%string)
      (filter (fun n => el_element n && negb (String.eqb (el_tag n) "commodity")) ch).

Lemma positive_indices_snoc : forall stack c,
  positive_indices (stack ++ [c]) =
  positive_indices stack ++ (if Z.ltb 0 (com_price c) then [List.length stack] else []).
Proof.
  intros stack c. unfold positive_indices.
  rewrite length_app. cbn [List.length]. rewrite Nat.add_1_r, seq_S, filter_app.
  f_equal.
  - apply filter_ext_in. intros i Hi. apply in_seq in Hi.
    rewrite nth_error_app1 by lia. reflexivity.
  - cbn. rewrite nth_error_app2, Nat.sub_diag by lia. cbn.
    destruct (Z.ltb 0 (com_price c)); reflexivity.
Qed.

Lemma unknown_warnings_cons : forall path n ch,
  unknown_warnings path (n :: ch) = unknown_warnings path [n] ++ unknown_warnings path ch.
Proof.
  intros path n ch. unfold unknown_warnings. cbn [filter].
  destruct (el_element n && negb (String.eqb (el_tag n) "commodity")); reflexivity.
Qed.

Lemma load_step_inv : forall parse path stack w n,
  load_step parse path
    (mkCat stack (positive_indices stack) (List.length (positive_indices stack)), w) n =
  if is_commodity n
  then (mkCat (stack ++ [parse n]) (positive_indices (stack ++ [parse n]))
              (List.length (positive_indices (stack ++ [parse n]))), w)
  else (mkCat stack (positive_indices stack) (List.length (positive_indices stack)),
        w ++ unknown_warnings path [n]).
Proof.
  intros parse path stack w n. unfold load_step, is_commodity, unknown_warnings.
  cbn [filter].
  destruct (el_element n); cbn [negb andb filter map].
  - destruct (String.eqb (el_tag n) "commodity"); cbn [negb filter map].
    + cbn [commodity_stack econ_comm econ_nprices].
      rewrite positive_indices_snoc, length_app. cbn [List.length].
      replace (List.length stack + 1 - 1)%nat with (List.length stack) by lia.
      destruct (Z.ltb 0 (com_price (parse n))).
      * rewrite length_app. cbn [List.length]. rewrite Nat.add_1_r. reflexivity.
      * rewrite app_nil_r. reflexivity.
    + reflexivity.
  - rewrite app_nil_r. reflexivity.
Qed.

Lemma load_fold : forall parse path ch stack w,
  fold_left (load_step parse path) ch
    (mkCat stack (positive_indices stack) (List.length (positive_indices stack)), w) =
  (mkCat (stack ++ map parse (filter is_commodity ch))
         (positive_indices (stack ++ map parse (filter is_commodity ch)))
         (List.length (positive_indices (stack ++ map parse (filter is_commodity ch)))),
   w ++ unknown_warnings path ch).
Proof.
  intros parse path ch; induction ch as [|n ch IH]; intros stack w.
  - cbn. rewrite !app_nil_r. reflexivity.
  - cbn [fold_left]. rewrite (unknown_warnings_cons path n ch), load_step_inv. cbn [filter].
    destruct (is_commodity n) eqn:Ei.
    + rewrite IH. cbn [map]. rewrite <- app_assoc. cbn [app].
      assert (Hw : unknown_warnings path [n] = []).
      { unfold unknown_warnings, is_commodity in *. cbn [filter].
        apply andb_prop in Ei. destruct Ei as [-> ->]. reflexivity. }
      rewrite Hw. reflexivity.
    + rewrite IH. rewrite app_assoc. reflexivity.
Qed.

(** X4: on a document whose root is <Commodities> with at least one child,
    [commodity_load] returns 0; [commodity_stack] holds the parsed
    <commodity> elements in document order, [econ_comm] the stack indices
    of those with a positive price in increasing order, [econ_nprices] its
    length, and one warning is issued per other element. *)
Theorem commodity_load_spec : forall parse path ch,
  ch <> [] ->
  commodity_load parse path (Parsed "Commodities" ch) =
  Some (0%Z, mkCat (map parse (filter is_commodity ch))
                   (positive_indices (map parse (filter is_commodity ch)))
                   (List.length (positive_indices (map parse (filter is_commodity ch)))),
        unknown_warnings path ch).
Proof.
  intros parse path ch Hch. unfold commodity_load. cbn [String.eqb negb].
  destruct ch as [|n ch]; [congruence|].
  change (mkCat [] [] 0) with
    (mkCat [] (positive_indices []) (List.length (positive_indices []))).
  rewrite load_fold. reflexivity.
Qed.

Lemma commodity_load_spec_witness :
  let ch := [mkXElem true "commodity" []; mkXElem true "junk" []] in
  ch <> [] /\
  commodity_load (fun _ => mkCommodity "Food" 100 200 0 [] [] 0) "c.xml"
                 (Parsed "Commodities" ch) =
  Some (0%Z, mkCat (map (fun _ => mkCommodity "Food" 100 200 0 [] [] 0)
                        (filter is_commodity ch))
                   (positive_indices (map (fun _ => mkCommodity "Food" 100 200 0 [] [] 0)
                                         (filter is_commodity ch)))
                   (List.length (positive_indices
                      (map (fun _ => mkCommodity "Food" 100 200 0 [] [] 0)
                           (filter is_commodity ch)))),
        unknown_warnings "c.xml" ch).
Proof.
  intros ch. assert (H : ch <> []) by discriminate.
  split; [exact H|exact (commodity_load_spec _ _ ch H)].
Defined.

Lemma positive_indices_spec : forall stack k,
  In k (positive_indices stack) <->
  exists c, nth_error stack k = Some c /\ (0 < com_price c)%Z.
Proof.
  intros stack k. unfold positive_indices. rewrite filter_In, in_seq. split.
  - intros [Hk H]. destruct (nth_error stack k) eqn:E; [|discriminate].
    exists c. split; [reflexivity|]. apply Z.ltb_lt. exact H.
  - intros [c [E H]]. split.
    + split; [lia|]. apply nth_error_Some. congruence.
    + rewrite E. apply Z.ltb_lt. exact H.
Qed.

(** X5: after a successful [commodity_load], a commodity is priced (listed
    in [econ_comm]) exactly when it is in the stack with a positive price;
    a price query on any other index returns 0 with the warning "not known". *)
Theorem commodity_load_priced : forall parse path doc st w stp_div k p tme,
  commodity_load parse path doc = Some (0%Z, st, w) ->
  (Evaluator.econ_priced (econ_comm st) k = true <->
   exists c, nth_error (commodity_stack st) k = Some c /\ (0 < com_price c)%Z) /\
  (Evaluator.econ_priced (econ_comm st) k = false ->
   Evaluator.economy_getPriceAtTime stp_div (econ_comm st) (commodity_stack st) k p tme =
   (0%Z, ["Price for commodity '" ++ Initializer.cname (commodity_stack st) k
          ++ "' not known."]%string)).
Proof.
  intros parse path doc st w stp_div k p tme H.
  split.
  - destruct doc as [| |root ch]; try (cbn in H; discriminate).
    destruct (String.eqb root "Commodities") eqn:Er;
      [|unfold commodity_load in H; rewrite Er in H; discriminate].
    apply String.eqb_eq in Er; subst root.
    assert (Hch : ch <> []) by (intros ->; discriminate).
    rewrite (commodity_load_spec parse path ch Hch) in H.
    inversion H; subst; clear H. cbn [econ_comm commodity_stack].
    unfold Evaluator.econ_priced. rewrite existsb_exists.
    rewrite <- positive_indices_spec. split.
    + intros [x [Hx E]]. apply Nat.eqb_eq in E. subst x. exact Hx.
    + intros Hk. exists k. split; [exact Hk|apply Nat.eqb_refl].
  - intros Hn. unfold Evaluator.economy_getPriceAtTime. rewrite Hn. reflexivity.
Qed.

Lemma commodity_load_priced_witness :
  let parse := fun _ : XElem => mkCommodity "Food" 100 200 0 [] [] 0 in
  let ch := [mkXElem true "commodity" []] in
  commodity_load parse "c.xml" (Parsed "Commodities" ch) =
    Some (0%Z, mkCat [mkCommodity "Food" 100 200 0 [] [] 0] [0%nat] 1, []) /\
  (Evaluator.econ_priced [0%nat] 0 = true <->
   exists c, nth_error [mkCommodity "Food" 100 200 0 [] [] 0] 0 = Some c /\
             (0 < com_price c)%Z).
Proof.
  intros parse ch.
  assert (H : commodity_load parse "c.xml" (Parsed "Commodities" ch) =
    Some (0%Z, mkCat [mkCommodity "Food" 100 200 0 [] [] 0] [0%nat] 1, [])) by reflexivity.
  split; [exact H|].
  exact (proj1 (commodity_load_priced parse "c.xml" _ _ _ 1 0 (Universe.mkPlanet "Earth"%string "M"%string 0 0 0 0 [] []) 0%Z H)).
Defined.

End LoaderFacts.


Module GatherableFacts.
Import Universe Gatherables.

Lemma remove_nth_app : forall {A} (l1 : list A) y l2,
  remove_nth (List.length l1) (l1 ++ y :: l2) = l1 ++ l2.
Proof. intros A l1; induction l1 as [|a l1 IH]; intros y l2; simpl; congruence. Qed.

(** Has the lifetime of the gatherable run out? *)
Definition expired (g : Gatherable) : bool :=
  if Rlt_dec (g_lifeleng g) (g_timer g) then true else false.

Lemma gatherable_loop_spec : forall fuel dt pre rest,
  (List.length rest <= fuel)%nat ->
  gatherable_loop fuel dt (List.length pre) (pre ++ rest) =
  pre ++ filter (fun g => negb (expired g)) (map (advance dt) rest).
Proof.
  induction fuel as [|f IH]; intros dt pre rest Hl.
  - destruct rest; [|cbn in Hl; lia]. reflexivity.
  - destruct rest as [|g rest].
    + rewrite app_nil_r. cbn [gatherable_loop map filter]. rewrite app_nil_r.
      replace (nth_error pre (List.length pre)) with (@None Gatherable)
        by (symmetry; apply nth_error_None; lia).
      reflexivity.
    + cbn [gatherable_loop]. rewrite PersistFacts.nth_error_app_len, PersistFacts.set_nth_app.
      cbn [map filter]. destruct (expired (advance dt g)) eqn:He; cbn [negb];
        unfold expired in He;
        destruct (Rlt_dec (g_lifeleng (advance dt g)) (g_timer (advance dt g)));
        try discriminate.
      * rewrite remove_nth_app. apply IH. cbn in Hl. lia.
      * replace (S (List.length pre)) with (List.length (pre ++ [advance dt g]))
          by (rewrite length_app; cbn; lia).
        replace (pre ++ advance dt g :: rest) with ((pre ++ [advance dt g]) ++ rest)
          by (rewrite <- app_assoc; reflexivity).
        rewrite IH by (cbn in Hl; lia). rewrite <- app_assoc. reflexivity.
Qed.

(** X6: [gatherable_update] advances every gatherable once (timer + dt,
    position + dt*velocity), removes exactly those whose timer then
    exceeds their lifetime, keeps the others in their order, and adds dt
    to [noscoop_timer]. *)
Theorem gatherable_update_spec : forall dt st,
  gatherable_update dt st =
  mkGS (filter (fun g => negb (expired g)) (map (advance dt) (gatherable_stack st)))
       (noscoop_timer st + dt).
Proof.
  intros dt st. unfold gatherable_update. f_equal.
  apply (gatherable_loop_spec _ dt [] (gatherable_stack st)). lia.
Qed.

(** X7: [gatherable_init] appends: [gatherable_getPos] on the new id (the
    old count) returns the given position and velocity with 1, and on
    every other id returns what it returned before. *)
Theorem getPos_init : forall rngf com pos vel st id,
  gatherable_getPos (gatherable_init rngf com pos vel st) id =
  if Z.eqb id (Z.of_nat (List.length (gatherable_stack st))) then (pos, vel, 1%Z)
  else gatherable_getPos st id.
Proof.
  intros rngf com pos vel st id. unfold gatherable_getPos, gatherable_init.
  cbn [gatherable_stack]. rewrite length_app. cbn [List.length].
  set (n := List.length (gatherable_stack st)).
  destruct (Z.eqb_spec id (Z.of_nat n)) as [E|E].
  - subst id. replace (Z.ltb (Z.of_nat n) 0) with false by (symmetry; apply Z.ltb_ge; lia).
    replace (Z.ltb (Z.of_nat (n + 1) - 1) (Z.of_nat n)) with false
      by (symmetry; apply Z.ltb_ge; lia).
    cbn [orb]. rewrite Nat2Z.id. unfold n. rewrite nth_error_app2, Nat.sub_diag by lia.
    reflexivity.
  - destruct (Z.ltb_spec id 0); cbn [orb]; [reflexivity|].
    destruct (Z.ltb_spec (Z.of_nat (n + 1) - 1) id);
      destruct (Z.ltb_spec (Z.of_nat n - 1) id); try lia; [reflexivity|].
    rewrite nth_error_app1 by lia. reflexivity.
Qed.

Section Closest.
Variable vect_dist : vec -> vec -> R.
Variable pos : vec.
Variable rad : R.

Let d (g : Gatherable) : R := vect_dist pos (g_pos g).

(** What the loop of [gatherable_getClosest] knows after a prefix [L]. *)
Definition closest_inv (L : list Gatherable) (curg : Z) (mindist : option R) : Prop :=
  (curg = (-1)%Z /\ mindist = None /\ forall h, In h L -> rad <= d h) \/
  (exists c g, curg = Z.of_nat c /\ nth_error L c = Some g /\ mindist = Some (d g) /\
     d g < rad /\
     (forall j h, nth_error L j = Some h -> d g <= d h) /\
     (forall j h, (j < c)%nat -> nth_error L j = Some h -> d g < d h)).

Lemma closest_step : forall pre g curg m,
  closest_inv pre curg m ->
  let below_min := match m with
                   | None => true
                   | Some m => if Rlt_dec (d g) m then true else false
                   end in
  if below_min && (if Rlt_dec (d g) rad then true else false)
  then closest_inv (pre ++ [g]) (Z.of_nat (List.length pre)) (Some (d g))
  else closest_inv (pre ++ [g]) curg m.
Proof.
  intros pre g curg m Hinv below_min.
  destruct (Rlt_dec (d g) rad) as [Hr|Hr]; rewrite ?andb_true_r, ?andb_false_r.
  - destruct below_min eqn:Hb.
    + right. exists (List.length pre), g.
      split; [reflexivity|]. split; [apply PersistFacts.nth_error_app_len|].
      split; [reflexivity|]. split; [exact Hr|].
      assert (Hlow : forall j h, (j < List.length pre)%nat -> nth_error pre j = Some h ->
                                 d g < d h).
      { intros j h Hj Hh. destruct Hinv as [[_ [-> Hall]]|[c [gc [_ [Hc [-> [_ [Hle _]]]]]]]].
        - assert (Hin : In h pre) by (eapply nth_error_In; eauto).
          specialize (Hall h Hin). lra.
        - unfold below_min in Hb. destruct (Rlt_dec (d g) (d gc)); [|discriminate].
          specialize (Hle j h Hh). lra. }
      split.
      * intros j h Hh. destruct (Nat.lt_ge_cases j (List.length pre)).
        -- rewrite nth_error_app1 in Hh by lia. apply Rlt_le. eapply Hlow; eauto.
        -- rewrite nth_error_app2 in Hh by lia.
           destruct (j - List.length pre)%nat as [|k]; cbn in Hh.
           ++ inversion Hh. lra.
           ++ destruct k; discriminate.
      * intros j h Hj Hh. rewrite nth_error_app1 in Hh by lia. eapply Hlow; eauto.
    + destruct Hinv as [[-> [-> Hall]]|[c [gc [-> [Hc [-> [Hgr [Hle Hlt]]]]]]]].
      * discriminate.
      * unfold below_min in Hb. destruct (Rlt_dec (d g) (d gc)) as [|Hn]; [discriminate|].
        right. exists c, gc.
        assert (Hcl : (c < List.length pre)%nat) by (apply nth_error_Some; congruence).
        split; [reflexivity|]. split; [rewrite nth_error_app1 by lia; exact Hc|].
        split; [reflexivity|]. split; [exact Hgr|]. split.
        -- intros j h Hh. destruct (Nat.lt_ge_cases j (List.length pre)).
           ++ rewrite nth_error_app1 in Hh by lia. eauto.
           ++ rewrite nth_error_app2 in Hh by lia.
              destruct (j - List.length pre)%nat as [|k]; cbn in Hh.
              ** inversion Hh; subst. lra.
              ** destruct k; discriminate.
        -- intros j h Hj Hh. rewrite nth_error_app1 in Hh by lia. eauto.
  - cbv zeta.
    destruct Hinv as [[-> [-> Hall]]|[c [gc [-> [Hc [-> [Hgr [Hle Hlt]]]]]]]].
    + left. split; [reflexivity|]. split; [reflexivity|].
      intros h Hh. apply in_app_or in Hh. destruct Hh as [Hh|[<-|[]]]; [auto|lra].
    + right. exists c, gc.
      assert (Hcl : (c < List.length pre)%nat) by (apply nth_error_Some; congruence).
      split; [reflexivity|]. split; [rewrite nth_error_app1 by lia; exact Hc|].
      split; [reflexivity|]. split; [exact Hgr|]. split.
      * intros j h Hh. destruct (Nat.lt_ge_cases j (List.length pre)).
        -- rewrite nth_error_app1 in Hh by lia. eauto.
        -- rewrite nth_error_app2 in Hh by lia.
           destruct (j - List.length pre)%nat as [|k]; cbn in Hh.
           ++ inversion Hh; subst. lra.
           ++ destruct k; discriminate.
      * intros j h Hj Hh. rewrite nth_error_app1 in Hh by lia. eauto.
Qed.

Lemma closest_loop_inv : forall l pre curg m,
  closest_inv pre curg m ->
  exists m', closest_inv (pre ++ l) (closest_loop vect_dist pos rad (List.length pre) l curg m) m'.
Proof.
  induction l as [|g l IH]; intros pre curg m Hinv.
  - exists m. rewrite app_nil_r. exact Hinv.
  - cbn [closest_loop]. pose proof (closest_step pre g curg m Hinv) as Hs.
    cbv zeta in Hs. fold (d g).
    replace (pre ++ g :: l) with ((pre ++ [g]) ++ l) by (rewrite <- app_assoc; reflexivity).
    destruct (match m with Some m0 => if Rlt_dec (d g) m0 then true else false | None => true end
              && (if Rlt_dec (d g) rad then true else false));
      replace (S (List.length pre)) with (List.length (pre ++ [g]))
        by (rewrite length_app; cbn; lia); apply IH; exact Hs.
Qed.

End Closest.

(** X8: [gatherable_getClosest] returns -1 exactly when no gatherable is
    closer than [rad]; otherwise it returns the index [i] of a gatherable
    closer than [rad] whose distance is minimal, and every gatherable
    before [i] is strictly farther (the first nearest one wins). *)
Theorem getClosest_spec : forall vect_dist st pos rad,
  let l := gatherable_stack st in
  let d g := vect_dist pos (g_pos g) in
  (gatherable_getClosest vect_dist st pos rad = (-1)%Z /\ forall h, In h l -> rad <= d h) \/
  (exists i g, gatherable_getClosest vect_dist st pos rad = Z.of_nat i /\
     nth_error l i = Some g /\ d g < rad /\
     (forall j h, nth_error l j = Some h -> d g <= d h) /\
     (forall j h, (j < i)%nat -> nth_error l j = Some h -> d g < d h)).
Proof.
  intros vect_dist st pos rad l d.
  assert (H0 : closest_inv vect_dist pos rad [] (-1)%Z None).
  { left. split; [reflexivity|]. split; [reflexivity|]. intros h []. }
  destruct (closest_loop_inv vect_dist pos rad l [] (-1)%Z None H0) as [m' H].
  unfold gatherable_getClosest. fold l. cbn [List.length app] in H.
  destruct H as [[E [_ Hall]]|[c [g [E [Hc [_ [Hr [Hle Hlt]]]]]]]].
  - left. split; [exact E|exact Hall].
  - right. exists c, g. repeat split; auto.
Qed.

Section Gather.
Variable vect_dist : vec -> vec -> R.
Variable PilotState : Type.
Variable pilot_cargoAdd : PilotState -> nat -> PilotState * Z.
Variable pilot_cargoFree : PilotState -> Z.
Variable pilot_isPlayer : bool.
Variable ppos : vec.

Lemma remove_nth_head : forall {A} (b : A) t i,
  (1 <= i)%nat -> exists t', remove_nth i (b :: t) = b :: t'.
Proof. intros A b t [|i] Hi; [lia|]. cbn. eauto. Qed.

Lemma gather_loop_keeps_head : forall fuel i b t p ns msgs,
  (1 <= i)%nat ->
  exists t', fst (fst (fst (gather_loop vect_dist PilotState pilot_cargoAdd pilot_cargoFree
                         pilot_isPlayer ppos fuel i (b :: t) p ns msgs))) = b :: t'.
Proof.
  induction fuel as [|f IH]; intros i b t p ns msgs Hi; [cbn; eauto|].
  cbn [gather_loop]. destruct (nth_error (b :: t) i) as [gat|]; [|cbn; eauto].
  destruct (Rlt_dec (vect_dist ppos (g_pos gat)) GATHER_DIST); [|apply IH; lia].
  destruct (pilot_cargoAdd p (g_type gat)) as [p' q].
  destruct (Z.ltb 0 q).
  - destruct (remove_nth_head b t i Hi) as [t' ->]. apply IH. lia.
  - destruct (pilot_isPlayer && (if Rlt_dec 2 ns then true else false)); apply IH; lia.
Qed.

Lemma gather_first : forall f a t p ns msgs p1 q,
  vect_dist ppos (g_pos a) < GATHER_DIST ->
  pilot_cargoAdd p (g_type a) = (p1, q) -> (0 < q)%Z ->
  exists ms, gather_loop vect_dist PilotState pilot_cargoAdd pilot_cargoFree pilot_isPlayer
               ppos (S f) 0 (a :: t) p ns msgs =
             gather_loop vect_dist PilotState pilot_cargoAdd pilot_cargoFree pilot_isPlayer
               ppos f 1 t p1 ns ms.
Proof.
  intros f a t p ns msgs p1 q Hd Hc Hq. cbn [gather_loop nth_error].
  destruct (Rlt_dec (vect_dist ppos (g_pos a)) GATHER_DIST) as [_|Hn]; [|lra].
  rewrite Hc. replace (Z.ltb 0 q) with true by (symmetry; apply Z.ltb_lt; exact Hq).
  cbn [remove_nth]. eexists. reflexivity.
Qed.

End Gather.

(** X9: after [gatherable_gather] collects the first gatherable of the
    stack, the one that moves into its slot is not examined again in that
    call: it stays first in the stack, however close it is. *)
Theorem gather_skips_next : forall vect_dist PilotState pilot_cargoAdd pilot_cargoFree
    pilot_isPlayer ppos st p a b rest p1 q,
  gatherable_stack st = a :: b :: rest ->
  vect_dist ppos (g_pos a) < GATHER_DIST ->
  pilot_cargoAdd p (g_type a) = (p1, q) -> (0 < q)%Z ->
  exists rest', gatherable_stack (fst (fst (gatherable_gather vect_dist PilotState
      pilot_cargoAdd pilot_cargoFree pilot_isPlayer ppos st p))) = b :: rest'.
Proof.
  intros vect_dist PS cadd cfree isp ppos st p a b rest p1 q Hs Hd Hc Hq.
  unfold gatherable_gather. rewrite Hs. cbn [List.length].
  destruct (gather_first vect_dist PS cadd cfree isp ppos (S (List.length rest)) a (b :: rest) p
              (noscoop_timer st) [] p1 q Hd Hc Hq) as [ms ->].
  destruct (gather_loop_keeps_head vect_dist PS cadd cfree isp ppos
              (S (List.length rest)) 1 b rest p1 (noscoop_timer st) ms) as [t' Ht]; [lia|].
  destruct (gather_loop vect_dist PS cadd cfree isp ppos (S (List.length rest)) 1
              (b :: rest) p1 (noscoop_timer st) ms) as [[[l' p'] ns'] ms'].
  cbn in Ht |- *. exists t'. exact Ht.
Qed.

Lemma gather_skips_next_witness :
  let g := mkGat 0 (0, 0) (0, 0) 0 100 in
  let st := mkGS [g; g] 1 in
  exists rest', gatherable_stack (fst (fst (gatherable_gather (fun _ _ => 0) unit
      (fun u _ => (u, 1%Z)) (fun _ => 10%Z) true (0, 0) st tt))) = g :: rest'.
Proof.
  intros g st.
  apply (gather_skips_next (fun _ _ => 0) unit (fun u _ => (u, 1%Z)) (fun _ => 10%Z) true
           (0, 0) st tt g g [] tt 1%Z); [reflexivity| |reflexivity|lia].
  unfold GATHER_DIST. lra.
Defined.

End GatherableFacts.


Module AverageFacts.
Import Universe Catalog Evaluator Average.

Definition sumR (l : list R) : R := fold_right Rplus 0 l.

(** The entries the inner loop of [economy_getAveragePrice] counts on the
    planets [ps] (found, count > 0), in loop order. *)
Definition planet_cps (stack : list Commodity) (name : string) (ps : list Planet)
    : list CommodityPrice :=
  flat_map (fun p =>
    match planet_index stack p name with
    | Some k => match nth_error (pl_commodityPrice p) k with
                | Some cp => if Z.ltb 0 (cp_cnt cp) then [cp] else []
                | None => []
                end
    | None => []
    end) ps.

(** The same over the systems. *)
Definition observed_cps (stack : list Commodity) (systems : list StarSystem)
    (name : string) : list CommodityPrice :=
  flat_map (fun sys => planet_cps stack name (sys_planets sys)) systems.

Definition cp_mean (cp : CommodityPrice) : R := IZR (cp_sum cp) / IZR (cp_cnt cp).

(** The per-planet means [sum/cnt] of the observed entries. *)
Definition observed_means (stack : list Commodity) (systems : list StarSystem)
    (name : string) : list R :=
  map cp_mean (observed_cps stack systems name).

(** [int] product [cnt*cnt] without overflow. *)
Definition cnt_fits (cp : CommodityPrice) : Prop := (cp_cnt cp <= 46340)%Z.

Lemma sumR_app : forall l1 l2, sumR (l1 ++ l2) = sumR l1 + sumR l2.
Proof.
  intros l1 l2; induction l1 as [|x l1 IH]; cbn [app]; unfold sumR in *; cbn [fold_right];
    [ring|rewrite IH; ring].
Qed.

Lemma avg_planets_fold : forall stack name ps av av2 cnt,
  let cs := planet_cps stack name ps in
  Forall cnt_fits cs ->
  fold_left (avg_step stack name) ps (av, av2, cnt) =
  (av + sumR (map cp_mean cs), av2 + sumR (map (fun m => m * m) (map cp_mean cs)),
   (cnt + Z.of_nat (List.length cs))%Z).
Proof.
  intros stack name ps; induction ps as [|p ps IH]; intros av av2 cnt cs Hf.
  - subst cs. cbn. f_equal; [f_equal; ring|lia].
  - subst cs. unfold planet_cps in Hf |- *. cbn [fold_left flat_map] in Hf |- *.
    fold (planet_cps stack name ps) in Hf |- *.
    unfold avg_step at 2.
    destruct (planet_index stack p name) as [k|]; [|apply IH; exact Hf].
    destruct (nth_error (pl_commodityPrice p) k) as [cp|]; [|apply IH; exact Hf].
    destruct (Z.ltb_spec 0 (cp_cnt cp)) as [Hc|Hc]; [|apply IH; exact Hf].
    cbn [app] in Hf |- *. inversion Hf as [|? ? Hcp Hrest]; subst.
    rewrite IH by exact Hrest. cbn [map sumR List.length].
    unfold sumR, cnt_fits, cp_mean in *. cbn [fold_right].
    assert (Hz : IZR (cp_cnt cp) <> 0) by (apply not_0_IZR; lia).
    rewrite (ObservationFacts.wrap_int_small (cp_cnt cp * cp_cnt cp))
      by (change (2 ^ 31)%Z with 2147483648%Z; nia).
    f_equal; [f_equal|].
    + ring.
    + rewrite mult_IZR. field. exact Hz.
    + rewrite Nat2Z.inj_succ. lia.
Qed.

Lemma avg_systems_fold : forall stack name systems av av2 cnt,
  Forall cnt_fits (observed_cps stack systems name) ->
  let ms := observed_means stack systems name in
  fold_left (fun acc sys => fold_left (avg_step stack name) (sys_planets sys) acc)
            systems (av, av2, cnt) =
  (av + sumR ms, av2 + sumR (map (fun m => m * m) ms), (cnt + Z.of_nat (List.length ms))%Z).
Proof.
  intros stack name systems; induction systems as [|s systems IH]; intros av av2 cnt Hf ms.
  - subst ms. cbn. f_equal; [f_equal; ring|lia].
  - subst ms. unfold observed_means, observed_cps in Hf |- *. cbn [flat_map] in Hf |- *.
    fold (observed_cps stack systems name) in Hf |- *.
    apply Forall_app in Hf as [Hf1 Hf2].
    cbn [fold_left]. rewrite avg_planets_fold by exact Hf1.
    rewrite IH by exact Hf2. unfold observed_means.
    rewrite !map_app, ?length_app, !sumR_app, ?length_map.
    f_equal; [f_equal; ring|lia].
Qed.

Lemma sum_sq_dev : forall (ms : list R) (a : R),
  sumR (map (fun m => (m - a) * (m - a)) ms) =
  sumR (map (fun m => m * m) ms) - 2 * a * sumR ms + INR (List.length ms) * a * a.
Proof.
  intros ms a; induction ms as [|m ms IH]; cbn [map sumR fold_right List.length].
  - unfold sumR. cbn. ring.
  - unfold sumR in *. cbn [fold_right]. rewrite IH, S_INR. ring.
Qed.

(** X10: for a priced good observed on at least one planet, each count
    at most 46340 (so that the [int] product [cnt*cnt] does not wrap),
    [economy_getAveragePrice] returns 0 with mean = [(credits_t)(µ + 0.5)]
    and std = the population standard deviation [sqrt(Σ(m-µ)²/n)], where
    the m are the per-planet means sum/cnt of the n observed planets and
    µ their plain average: every planet weighs the same, however many
    observations it holds. *)
Theorem getAveragePrice_population_std : forall econ_comm stack systems k,
  econ_priced econ_comm k = true ->
  Forall cnt_fits (observed_cps stack systems (Initializer.cname stack k)) ->
  let ms := observed_means stack systems (Initializer.cname stack k) in
  ms <> [] ->
  let n := INR (List.length ms) in
  let mu := sumR ms / n in
  economy_getAveragePrice econ_comm stack systems k =
  (0%Z, c_trunc (mu + 0.5),
   sqrt (sumR (map (fun m => (m - mu) * (m - mu)) ms) / n), []).
Proof.
  intros econ_comm stack systems k Hp Hf ms Hne n mu.
  unfold economy_getAveragePrice. rewrite Hp. cbn [negb].
  rewrite avg_systems_fold by exact Hf. fold ms.
  assert (Hn : (0 < List.length ms)%nat) by (destruct ms; [congruence|cbn; lia]).
  replace (0 + Z.of_nat (List.length ms))%Z with (Z.of_nat (List.length ms)) by lia.
  replace (Z.ltb 0 (Z.of_nat (List.length ms))) with true by (symmetry; apply Z.ltb_lt; lia).
  rewrite <- INR_IZR_INZ. fold n.
  assert (Hn0 : n <> 0) by (unfold n; apply not_0_INR; lia).
  replace ((0 + sumR ms) / n) with mu by (unfold mu; field; exact Hn0).
  f_equal. f_equal. f_equal.
  rewrite sum_sq_dev. fold n. unfold mu. field. exact Hn0.
Qed.

Lemma getAveragePrice_population_std_witness :
  let cp := mkCP 100 1 1 0 0 30 500 3 7 in
  let p := mkPlanet "Earth" "M" 0 0 0 0 [0%nat] [cp] in
  let s := mkSys "Sol" (-1) 0 0 0 0 [] [p] [] in
  let stack := [mkCommodity "Food" 100 200 0 [] [] 0] in
  econ_priced [0%nat] 0 = true /\
  Forall cnt_fits (observed_cps stack [s] (Initializer.cname stack 0)) /\
  observed_means stack [s] (Initializer.cname stack 0) <> [] /\
  economy_getAveragePrice [0%nat] stack [s] 0 =
  (0%Z, c_trunc (sumR (observed_means stack [s] "Food") / 1 + 0.5),
   sqrt (sumR (map (fun m => (m - sumR (observed_means stack [s] "Food") / 1) *
                             (m - sumR (observed_means stack [s] "Food") / 1))
                   (observed_means stack [s] "Food")) / 1), []).
Proof.
  intros cp p s stack.
  assert (H1 : econ_priced [0%nat] 0 = true) by reflexivity.
  assert (Hf : Forall cnt_fits (observed_cps stack [s] (Initializer.cname stack 0))).
  { cbn. constructor; [unfold cnt_fits; cbn; lia|constructor]. }
  assert (H2 : observed_means stack [s] (Initializer.cname stack 0) <> [])
    by (cbn; discriminate).
  split; [exact H1|split; [exact Hf|split; [exact H2|]]].
  exact (getAveragePrice_population_std [0%nat] stack [s] 0 H1 Hf H2).
Defined.

(** X11: a good that is not priced gives return value 1, mean 0, std 0 and
    the warning "not known"; a priced good observed nowhere gives return
    value 0, mean 0 and std 0 with no warning. *)
Theorem getAveragePrice_edges : forall econ_comm stack systems k,
  (econ_priced econ_comm k = false ->
   economy_getAveragePrice econ_comm stack systems k =
   (1%Z, 0%Z, 0, ["Average price for commodity '" ++ Initializer.cname stack k
                  ++ "' not known."]%string)) /\
  (econ_priced econ_comm k = true ->
   observed_means stack systems (Initializer.cname stack k) = [] ->
   economy_getAveragePrice econ_comm stack systems k = (0%Z, 0%Z, 0, [])).
Proof.
  intros econ_comm stack systems k. split.
  - intros Hp. unfold economy_getAveragePrice. rewrite Hp. reflexivity.
  - intros Hp Hm. unfold economy_getAveragePrice. rewrite Hp. cbn [negb].
    assert (Hc : observed_cps stack systems (Initializer.cname stack k) = [])
      by (unfold observed_means in Hm; apply map_eq_nil in Hm; exact Hm).
    rewrite avg_systems_fold by (rewrite Hc; constructor).
    rewrite Hm. cbn.
    replace (0 + 0 + 0.5) with (IZR 0 + 0.5) by (cbn; ring).
    rewrite RoundingFacts.c_trunc_half by lia. f_equal. f_equal. ring.
Qed.

Lemma getAveragePrice_edges_witness :
  let stack := [mkCommodity "Food" 100 200 0 [] [] 0] in
  economy_getAveragePrice [1%nat] stack [] 0 =
    (1%Z, 0%Z, 0, ["Average price for commodity 'Food' not known."]%string) /\
  economy_getAveragePrice [0%nat] stack [] 0 = (0%Z, 0%Z, 0, []).
Proof.
  intros stack. destruct (getAveragePrice_edges [1%nat] stack [] 0) as [H1 _].
  destruct (getAveragePrice_edges [0%nat] stack [] 0) as [_ H2].
  split; [exact (H1 eq_refl)|exact (H2 eq_refl eq_refl)].
Defined.

(** X12: after [economy_clearKnown], the global average of every priced
    good is mean 0, std 0, return value 0. *)
Theorem clearKnown_average_zero : forall econ_comm stack systems k,
  econ_priced econ_comm k = true ->
  economy_getAveragePrice econ_comm (fst (Persist.economy_clearKnown stack systems))
                          (snd (Persist.economy_clearKnown stack systems)) k =
  (0%Z, 0%Z, 0, []).
Proof.
  intros econ_comm stack systems k Hp.
  apply (proj2 (getAveragePrice_edges _ _ _ k) Hp).
  unfold Persist.economy_clearKnown, observed_means, observed_cps. cbn [fst snd].
  induction systems as [|s systems IH]; [reflexivity|].
  cbn [map flat_map]. rewrite map_app, IH, app_nil_r.
  cbn [sys_planets Initializer.set_planets]. unfold planet_cps.
  induction (sys_planets s) as [|p ps IHp]; [reflexivity|].
  cbn [map flat_map]. rewrite map_app, IHp, app_nil_r.
  destruct (planet_index _ _ _) as [i|]; [|reflexivity].
  cbn [pl_commodityPrice Initializer.set_commodityPrice]. rewrite nth_error_map.
  destruct (nth_error (pl_commodityPrice p) i); reflexivity.
Qed.

Lemma clearKnown_average_zero_witness :
  let cp := mkCP 100 1 1 0 0 30 500 3 7 in
  let p := mkPlanet "Earth" "M" 0 0 0 0 [0%nat] [cp] in
  let s := mkSys "Sol" (-1) 0 0 0 0 [] [p] [] in
  let stack := [mkCommodity "Food" 100 200 0 [] [] 0] in
  economy_getAveragePrice [0%nat] (fst (Persist.economy_clearKnown stack [s]))
                          (snd (Persist.economy_clearKnown stack [s])) 0 =
  (0%Z, 0%Z, 0, []).
Proof. intros cp p s stack. exact (clearKnown_average_zero [0%nat] stack [s] 0 eq_refl). Defined.

End AverageFacts.


Module SymmetryFacts.
Import Universe Network.

Lemma entry_cons : forall a b v T i j,
  entry ((a, b, v) :: T) i j =
  (if Nat.eqb a i && Nat.eqb b j then v else 0) + entry T i j.
Proof.
  intros a b v T i j. unfold entry. cbn [fold_right].
  destruct (Nat.eqb a i && Nat.eqb b j); ring.
Qed.

Lemma entry_app : forall T1 T2 i j, entry (T1 ++ T2) i j = entry T1 i j + entry T2 i j.
Proof.
  induction T1 as [|[[a b] v] T1 IH]; intros T2 i j.
  - change (entry [] i j) with 0. cbn [app]. ring.
  - cbn [app]. rewrite !entry_cons, IH. ring.
Qed.

Lemma sys_entries_symmetric : forall ae aa stack i s x y,
  entry (sys_entries ae aa stack i s) x y = entry (sys_entries ae aa stack i s) y x.
Proof.
  intros ae aa stack i s x y. unfold sys_entries.
  generalize 0. generalize (sys_jumps s) as js.
  induction js as [|t js IH]; intros Rs.
  - rewrite !entry_cons. unfold entry. cbn [fold_right].
    destruct (Nat.eqb i x), (Nat.eqb i y); reflexivity.
  - destruct (nth_error stack t) as [tgt|]; [|apply IH].
    rewrite !entry_cons, IH.
    destruct (Nat.eqb i x), (Nat.eqb t y), (Nat.eqb t x), (Nat.eqb i y); cbn; ring.
Qed.

(** X13: the admittance matrix built by [econ_createGMatrix] is symmetric,
    as its comment says: both entries of every jump get the same value and
    the rest is on the diagonal. *)
Theorem econ_createGMatrix_symmetric : forall ae aa stack i j,
  entry (econ_createGMatrix ae aa stack) i j = entry (econ_createGMatrix ae aa stack) j i.
Proof.
  intros ae aa stack i j. unfold econ_createGMatrix.
  assert (Hgo : forall l n, entry ((fix go (i : nat) (l : list StarSystem) : triplets :=
      match l with
      | [] => []
      | s :: rest => sys_entries ae aa stack i s ++ go (S i) rest
      end) n l) i j = entry ((fix go (i : nat) (l : list StarSystem) : triplets :=
      match l with
      | [] => []
      | s :: rest => sys_entries ae aa stack i s ++ go (S i) rest
      end) n l) j i).
  { induction l as [|s l IH]; intros n; [reflexivity|].
    rewrite !entry_app, IH, sys_entries_symmetric. reflexivity. }
  apply Hgo.
Qed.

(** X14: the jump resistance is symmetric ([econ_calcJumpR A B =
    econ_calcJumpR B A]) when the faction relations are. *)
Theorem econ_calcJumpR_symmetric : forall ae aa A B,
  (forall f g, ae f g = ae g f) -> (forall f g, aa f g = aa g f) ->
  econ_calcJumpR ae aa A B = econ_calcJumpR ae aa B A.
Proof.
  intros ae aa A B He Ha. unfold econ_calcJumpR.
  rewrite (He (sys_faction A)), (Ha (sys_faction A)), andb_comm.
  rewrite (Rplus_comm (sys_nebu_density A)), (Rplus_comm (sys_nebu_volatility A)).
  reflexivity.
Qed.

Lemma econ_calcJumpR_symmetric_witness :
  let ae := fun f g : Z => Z.eqb (f * g) 6 in
  let aa := fun f g : Z => Z.eqb (f + g) 3 in
  let A := mkSys "Sol" 2 100 10 0 0 [] [] [] in
  let B := mkSys "Alpha" 3 0 0 0 0 [] [] [] in
  econ_calcJumpR ae aa A B = econ_calcJumpR ae aa B A.
Proof.
  intros ae aa A B. apply econ_calcJumpR_symmetric.
  - intros f g. unfold ae. rewrite Z.mul_comm. reflexivity.
  - intros f g. unfold aa. rewrite Z.add_comm. reflexivity.
Defined.

End SymmetryFacts.

Module DisplayFacts.
Import Display.

Lemma scaled_bounds : forall x X, 0 < X -> X <= x < 1000 * X -> 1 <= x / X < 1000.
Proof.
  intros x X HX [H1 H2]. unfold Rdiv. split.
  - apply (Rmult_le_reg_r X); [exact HX|].
    rewrite Rmult_assoc, Rinv_l, Rmult_1_r by lra. lra.
  - apply (Rmult_lt_reg_r X); [exact HX|].
    rewrite Rmult_assoc, Rinv_l, Rmult_1_r by lra. lra.
Qed.

(** X15: [credits2str] prints the plain integer exactly when [decimals < 0]
    or [credits < 1000] (negative amounts are never abbreviated); for
    [decimals >= 0] and [1000 <= credits < 10^18] it prints
    [credits/1000^e] with the e-th suffix of K, M, B, T, Q, a value in
    [1, 1000). *)
Theorem credits2str_spec : forall c d,
  (credits2str c d = Plain c <-> (d < 0 \/ c < 1000)%Z) /\
  ((0 <= d)%Z -> (1000 <= c < 1000000000000000000)%Z ->
   exists e s, (1 <= e <= 5)%nat /\ nth_error ["K"; "M"; "B"; "T"; "Q"]%string (e - 1) = Some s /\
     credits2str c d = Scaled d (IZR c / 1000 ^ e) s /\ 1 <= IZR c / 1000 ^ e < 1000).
Proof.
  intros c d. unfold credits2str. split.
  - destruct (Z.ltb_spec d 0); [split; [auto|reflexivity]|].
    destruct (Z.leb_spec 1000000000000000 c); [split; [discriminate|lia]|].
    destruct (Z.leb_spec 1000000000000 c); [split; [discriminate|lia]|].
    destruct (Z.leb_spec 1000000000 c); [split; [discriminate|lia]|].
    destruct (Z.leb_spec 1000000 c); [split; [discriminate|lia]|].
    destruct (Z.leb_spec 1000 c); [split; [discriminate|lia]|].
    split; [lia|reflexivity].
  - intros Hd [Hl Hh]. apply IZR_le in Hl. apply IZR_lt in Hh.
    replace (Z.ltb d 0) with false by (symmetry; apply Z.ltb_ge; exact Hd).
    destruct (Z.leb_spec 1000000000000000 c) as [H|H0].
    { exists 5%nat, "Q"%string. apply IZR_le in H.
      split; [lia|split; [reflexivity|]].
      replace (1000 ^ 5) with 1000000000000000 by ring.
      split; [reflexivity|apply scaled_bounds; lra]. }
    destruct (Z.leb_spec 1000000000000 c) as [H|H1].
    { exists 4%nat, "T"%string. apply IZR_le in H. apply IZR_lt in H0.
      split; [lia|split; [reflexivity|]].
      replace (1000 ^ 4) with 1000000000000 by ring.
      split; [reflexivity|apply scaled_bounds; lra]. }
    destruct (Z.leb_spec 1000000000 c) as [H|H2].
    { exists 3%nat, "B"%string. apply IZR_le in H. apply IZR_lt in H1.
      split; [lia|split; [reflexivity|]].
      replace (1000 ^ 3) with 1000000000 by ring.
      split; [reflexivity|apply scaled_bounds; lra]. }
    destruct (Z.leb_spec 1000000 c) as [H|H3].
    { exists 2%nat, "M"%string. apply IZR_le in H. apply IZR_lt in H2.
      split; [lia|split; [reflexivity|]].
      replace (1000 ^ 2) with 1000000 by ring.
      split; [reflexivity|apply scaled_bounds; lra]. }
    destruct (Z.leb_spec 1000 c) as [H|H4].
    { exists 1%nat, "K"%string. apply IZR_lt in H3.
      split; [lia|split; [reflexivity|]].
      replace (1000 ^ 1) with 1000 by ring.
      split; [reflexivity|apply scaled_bounds; lra]. }
    apply IZR_lt in H4. lra.
Qed.

Lemma credits2str_spec_witness :
  exists e s, (1 <= e <= 5)%nat /\ nth_error ["K"; "M"; "B"; "T"; "Q"]%string (e - 1) = Some s /\
    credits2str 2500000 1 = Scaled 1 (IZR 2500000 / 1000 ^ e) s /\
    1 <= IZR 2500000 / 1000 ^ e < 1000.
Proof. apply (proj2 (credits2str_spec 2500000 1)); lia. Defined.

End DisplayFacts.

Module LifecycleFacts.
Import Universe Solver Lifecycle.

(** Everything of a system but its prices. *)
Definition strip (s : StarSystem) : StarSystem := set_sys_prices s [].

Lemma store_prices_strip : forall j X sc off i l,
  map strip (store_prices j X sc off i l) = map strip l.
Proof.
  intros j X sc off i l; revert i; induction l as [|s l IH]; intros i; [reflexivity|].
  cbn [store_prices map]. rewrite IH. reflexivity.
Qed.

Lemma store_prices_plen : forall N j X sc off i l,
  Forall (fun s => List.length (sys_prices s) = N) l ->
  Forall (fun s => List.length (sys_prices s) = N) (store_prices j X sc off i l).
Proof.
  intros N j X sc off i l; revert i; induction l as [|s l IH]; intros i H; [constructor|].
  inversion H; subst. cbn [store_prices]. constructor.
  - cbn [sys_prices]. rewrite SolverFacts.set_nth_length. reflexivity.
  - apply IH. assumption.
Qed.

Lemma update_loop_shape : forall solve G dt n j N stack warns,
  Forall (fun s => List.length (sys_prices s) = N) stack ->
  map strip (fst (update_loop solve G dt j n stack warns)) = map strip stack /\
  Forall (fun s => List.length (sys_prices s) = N) (fst (update_loop solve G dt j n stack warns)).
Proof.
  intros solve G dt n; induction n as [|n IH]; intros j N stack warns H; [split; auto|].
  cbn [update_loop]. unfold update_one.
  destruct (solve G (map (fun s => econ_calcSysI dt s j) stack)) as [ret X'].
  destruct (IH (S j) N (store_prices j X' 1 1 0 stack)
               (if Z.eqb ret 1 then warns else warns ++ ["Failed to solve the Economy System."%string]))
    as [H1 H2]; [apply store_prices_plen; exact H|].
  split; [rewrite H1; apply store_prices_strip|exact H2].
Qed.

Lemma calcJumpR_prices : forall ae aa A B pa pb,
  Network.econ_calcJumpR ae aa (set_sys_prices A pa) (set_sys_prices B pb) =
  Network.econ_calcJumpR ae aa A B.
Proof. reflexivity. Qed.

Lemma createGMatrix_prices : forall ae aa (f : StarSystem -> list R) stack,
  Network.econ_createGMatrix ae aa (map (fun s => set_sys_prices s (f s)) stack) =
  Network.econ_createGMatrix ae aa stack.
Proof.
  intros ae aa f stack. unfold Network.econ_createGMatrix.
  generalize 0%nat as n.
  assert (Hgo : forall l n, (fix go (i : nat) (l : list StarSystem) : Network.triplets :=
      match l with
      | [] => []
      | s :: rest => Network.sys_entries ae aa (map (fun s => set_sys_prices s (f s)) stack) i s
                     ++ go (S i) rest
      end) n (map (fun s => set_sys_prices s (f s)) l) =
    (fix go (i : nat) (l : list StarSystem) : Network.triplets :=
      match l with
      | [] => []
      | s :: rest => Network.sys_entries ae aa stack i s ++ go (S i) rest
      end) n l).
  { induction l as [|s l IH]; intros n; [reflexivity|].
    cbn [map]. rewrite IH. f_equal.
    unfold Network.sys_entries. cbn [sys_jumps set_sys_prices].
    generalize 0. induction (sys_jumps s) as [|t js IHj]; intros Rs; [reflexivity|].
    rewrite nth_error_map. destruct (nth_error stack t) as [tgt|]; cbn [option_map].
    - rewrite calcJumpR_prices, IHj. reflexivity.
    - apply IHj. }
  intros n. apply Hgo.
Qed.

(** X16: [economy_init] on an uninitialized economy returns 0 and leaves an
    initialized economy with an empty queue, [econ_nprices] unchanged, the
    admittance matrix of the systems in [econ_G], every system unchanged
    but for a prices array of exactly [econ_nprices] entries; a second
    [economy_init] then does nothing. *)
Theorem economy_init_spec : forall ae aa solve w,
  econ_initialized (w_econ w) = false ->
  let '(r, w', warns) := economy_init ae aa solve w in
  r = 0%Z /\ econ_initialized (w_econ w') = true /\ econ_queued (w_econ w') = 0%Z /\
  econ_nprices (w_econ w') = econ_nprices (w_econ w) /\
  econ_G w' = Some (Network.econ_createGMatrix ae aa (econ_stack (w_econ w))) /\
  map strip (econ_stack (w_econ w')) = map strip (econ_stack (w_econ w)) /\
  Forall (fun s => List.length (sys_prices s) = econ_nprices (w_econ w)) (econ_stack (w_econ w')) /\
  economy_init ae aa solve w' = (0%Z, w', []).
Proof.
  intros ae aa solve [[ini q np stack] G] Hi. cbn in Hi. subst ini.
  unfold economy_init, economy_refresh. cbn [w_econ econ_initialized econ_queued
    econ_nprices econ_stack econ_G negb].
  rewrite (createGMatrix_prices ae aa (fun _ => repeat 0 np)).
  unfold economy_update. cbn [econ_initialized negb econ_nprices econ_stack].
  set (stack0 := map (fun s => set_sys_prices s (repeat 0 np)) stack).
  assert (H0 : Forall (fun s => List.length (sys_prices s) = np) stack0).
  { unfold stack0. apply Forall_map. apply Forall_forall. intros s _.
    cbn. apply repeat_length. }
  destruct (update_loop_shape solve (Network.econ_createGMatrix ae aa stack) 0 np 0 np
              stack0 [] H0) as [Hs Hl].
  destruct (update_loop solve (Network.econ_createGMatrix ae aa stack) 0 0 np stack0 [])
    as [stack' warns] eqn:Eu.
  cbn [fst] in Hs, Hl. cbn.
  split; [reflexivity|]. split; [reflexivity|]. split; [reflexivity|].
  split; [reflexivity|]. split; [reflexivity|].
  split; [|split; [exact Hl|reflexivity]].
  rewrite Hs. unfold stack0. rewrite map_map. apply map_ext. intros s. reflexivity.
Qed.

Lemma economy_init_spec_witness :
  let w := mkWorld (mkEcon false 0 2 [mkSys "Sol" (-1) 0 0 0 0 [] [] []]) None in
  econ_initialized (w_econ w) = false /\
  let '(r, w', warns) := economy_init (fun _ _ => false) (fun _ _ => false)
                                      (fun _ X => (1%Z, X)) w in
  r = 0%Z /\ econ_initialized (w_econ w') = true /\ econ_queued (w_econ w') = 0%Z /\
  econ_nprices (w_econ w') = econ_nprices (w_econ w) /\
  econ_G w' = Some (Network.econ_createGMatrix (fun _ _ => false) (fun _ _ => false)
                                               (econ_stack (w_econ w))) /\
  map strip (econ_stack (w_econ w')) = map strip (econ_stack (w_econ w)) /\
  Forall (fun s => List.length (sys_prices s) = econ_nprices (w_econ w)) (econ_stack (w_econ w')) /\
  economy_init (fun _ _ => false) (fun _ _ => false) (fun _ X => (1%Z, X)) w' = (0%Z, w', []).
Proof.
  intros w. split; [reflexivity|].
  exact (economy_init_spec (fun _ _ => false) (fun _ _ => false) (fun _ X => (1%Z, X)) w eq_refl).
Defined.

(** X17: [economy_execQueued] does nothing when no update is queued; after
    [economy_addQueuedUpdate] on an initialized economy it does exactly
    what [economy_refresh] does (which empties the queue); on an
    uninitialized economy the queued count only grows and nothing is
    recomputed. *)
Theorem execQueued_spec : forall ae aa solve w,
  (econ_queued (w_econ w) = 0%Z -> economy_execQueued ae aa solve w = (0%Z, w, [])) /\
  ((0 <= econ_queued (w_econ w))%Z ->
   economy_execQueued ae aa solve (economy_addQueuedUpdate w) =
   if econ_initialized (w_econ w) then economy_refresh ae aa solve w
   else (0%Z, economy_addQueuedUpdate w, [])).
Proof.
  intros ae aa solve [[ini q np stack] G]. cbn [w_econ econ_queued econ_initialized].
  split.
  - intros ->. reflexivity.
  - intros Hq. unfold economy_execQueued, economy_addQueuedUpdate.
    cbn [w_econ econ_queued econ_initialized econ_nprices econ_stack econ_G].
    replace (Z.eqb (q + 1) 0) with false by (symmetry; apply Z.eqb_neq; lia).
    cbn [negb]. destruct ini; reflexivity.
Qed.

Lemma execQueued_spec_witness :
  let w := mkWorld (mkEcon true 0 0 []) None in
  economy_execQueued (fun _ _ => false) (fun _ _ => false) (fun _ X => (1%Z, X))
    (economy_addQueuedUpdate w) =
  economy_refresh (fun _ _ => false) (fun _ _ => false) (fun _ X => (1%Z, X)) w.
Proof.
  intros w.
  exact (proj2 (execQueued_spec (fun _ _ => false) (fun _ _ => false) (fun _ X => (1%Z, X)) w)
           (Z.le_refl 0)).
Defined.

(** X18: after [economy_destroy] the economy is uninitialized, [econ_G] is
    NULL and every system's prices are freed; destroying again,
    [economy_update], [economy_refresh] and [economy_execQueued] then
    change nothing. *)
Theorem economy_destroy_spec : forall ae aa solve G dt w,
  let w' := economy_destroy w in
  econ_initialized (w_econ w') = false /\
  (econ_initialized (w_econ w) = true ->
   econ_G w' = None /\ Forall (fun s => sys_prices s = []) (econ_stack (w_econ w'))) /\
  economy_destroy w' = w' /\
  economy_update solve G dt (w_econ w') = (0%Z, w_econ w', []) /\
  economy_refresh ae aa solve w' = (0%Z, w', []) /\
  economy_execQueued ae aa solve w' = (0%Z, w', []).
Proof.
  intros ae aa solve G dt [[ini q np stack] G0] w'.
  assert (Hi : econ_initialized (w_econ w') = false)
    by (unfold w', economy_destroy; destruct ini; reflexivity).
  split; [exact Hi|]. split.
  - intros H. cbn in H. subst ini. unfold w', economy_destroy. cbn.
    split; [reflexivity|]. apply Forall_map, Forall_forall. intros s _. reflexivity.
  - assert (Hr : economy_refresh ae aa solve w' = (0%Z, w', []))
      by (unfold economy_refresh; rewrite Hi; reflexivity).
    split; [unfold economy_destroy at 1; rewrite Hi; reflexivity|].
    split; [unfold economy_update; rewrite Hi; reflexivity|].
    split; [exact Hr|].
    unfold economy_execQueued. destruct (negb _); [exact Hr|reflexivity].
Qed.

Lemma economy_destroy_spec_witness :
  let w := mkWorld (mkEcon true 0 1 [mkSys "Sol" (-1) 0 0 0 0 [] [] [5]]) (Some []) in
  econ_G (economy_destroy w) = None /\
  Forall (fun s => sys_prices s = []) (econ_stack (w_econ (economy_destroy w))).
Proof.
  intros w.
  exact (proj1 (proj2 (economy_destroy_spec (fun _ _ => false) (fun _ _ => false)
                         (fun _ X => (1%Z, X)) [] 0 w)) eq_refl).
Defined.

End LifecycleFacts.

Module ObservationAtFacts.
Import Universe Catalog Evaluator Observation ObservationAt.

Lemma stamped_after : forall stp_div ec stack t tu p cp,
  In cp (pl_commodityPrice (economy_averageSeenPricesAtTime stp_div ec stack t tu p)) \/
  In cp (pl_commodityPrice (economy_averageSeenPrices stp_div ec stack t p)) ->
  (t <= cp_updateTime cp)%Z.
Proof.
  intros stp_div ec stack t tu p cp [H|H];
    unfold economy_averageSeenPricesAtTime, economy_averageSeenPrices in H;
    cbn [pl_commodityPrice Initializer.set_commodityPrice] in H;
    apply ListFacts.in_map2_mem in H; destruct H as [k [b [_ [_ ->]]]];
    destruct (Z.ltb_spec (cp_updateTime b) t); unfold set_obs; cbn [cp_updateTime]; lia.
Qed.

Lemma prices_length : forall stp_div ec stack t tu p,
  (List.length (pl_commodityPrice (economy_averageSeenPricesAtTime stp_div ec stack t tu p))
     <= List.length (pl_commodities (economy_averageSeenPricesAtTime stp_div ec stack t tu p)))%nat /\
  (List.length (pl_commodityPrice (economy_averageSeenPrices stp_div ec stack t p))
     <= List.length (pl_commodities (economy_averageSeenPrices stp_div ec stack t p)))%nat.
Proof.
  intros. unfold economy_averageSeenPricesAtTime, economy_averageSeenPrices.
  cbn [pl_commodityPrice pl_commodities Initializer.set_commodityPrice].
  rewrite !ListFacts.map2_length. lia.
Qed.

Lemma planet_eta : forall p,
  Initializer.set_commodityPrice p (pl_commodityPrice p) = p.
Proof. intros []; reflexivity. Qed.

(** X19: [economy_averageSeenPrices] and [economy_averageSeenPricesAtTime]
    share the per-entry stamp: after either has run at the current time
    t, neither of them (itself included) records anything at the same t,
    whatever time the price is read at; all four orders are covered. *)
Theorem seen_prices_stamp_shared : forall stp_div ec stack t tu tu' p,
  economy_averageSeenPrices stp_div ec stack t
    (economy_averageSeenPricesAtTime stp_div ec stack t tu p) =
  economy_averageSeenPricesAtTime stp_div ec stack t tu p /\
  economy_averageSeenPricesAtTime stp_div ec stack t tu'
    (economy_averageSeenPricesAtTime stp_div ec stack t tu p) =
  economy_averageSeenPricesAtTime stp_div ec stack t tu p /\
  economy_averageSeenPricesAtTime stp_div ec stack t tu
    (economy_averageSeenPrices stp_div ec stack t p) =
  economy_averageSeenPrices stp_div ec stack t p /\
  economy_averageSeenPrices stp_div ec stack t
    (economy_averageSeenPrices stp_div ec stack t p) =
  economy_averageSeenPrices stp_div ec stack t p.
Proof.
  intros stp_div ec stack t tu tu' p.
  destruct (prices_length stp_div ec stack t tu p) as [L1 L2].
  split; [|split; [|split]].
  - set (p' := economy_averageSeenPricesAtTime stp_div ec stack t tu p).
    unfold economy_averageSeenPrices at 1.
    rewrite ListFacts.map2_fixed; [apply planet_eta|exact L1|].
    intros k b Hb. pose proof (stamped_after stp_div ec stack t tu p b (or_introl Hb)).
    destruct (Z.ltb_spec (cp_updateTime b) t); [lia|reflexivity].
  - set (p' := economy_averageSeenPricesAtTime stp_div ec stack t tu p).
    unfold economy_averageSeenPricesAtTime at 1.
    rewrite ListFacts.map2_fixed; [apply planet_eta|exact L1|].
    intros k b Hb. pose proof (stamped_after stp_div ec stack t tu p b (or_introl Hb)).
    destruct (Z.ltb_spec (cp_updateTime b) t); [lia|reflexivity].
  - set (p' := economy_averageSeenPrices stp_div ec stack t p).
    unfold economy_averageSeenPricesAtTime at 1.
    rewrite ListFacts.map2_fixed; [apply planet_eta|exact L2|].
    intros k b Hb. pose proof (stamped_after stp_div ec stack t tu p b (or_intror Hb)).
    destruct (Z.ltb_spec (cp_updateTime b) t); [lia|reflexivity].
  - set (p' := economy_averageSeenPrices stp_div ec stack t p).
    unfold economy_averageSeenPrices at 1.
    rewrite ListFacts.map2_fixed; [apply planet_eta|exact L2|].
    intros k b Hb. pose proof (stamped_after stp_div ec stack t tu p b (or_intror Hb)).
    destruct (Z.ltb_spec (cp_updateTime b) t); [lia|reflexivity].
Qed.

End ObservationAtFacts.
